(** * Refractor: request splitting, parallel fetch and ordered reassembly

    A shallow embedding of [refractor/refractor.go].  The handler code is
    embedded as functions over an explicit world (the buffer pool and the
    trace of observable calls); the goroutines started by [retryRequest]
    and the receive loop of [handleRefracted] are embedded as a scheduler
    driven step function, so that statements can quantify over every
    interleaving. *)

From Stdlib Require Import ZArith String List Bool Lia DecimalString.
From stdpp Require Import base list strings.

Local Open Scope Z_scope.

(** ** Machine integers *)

(** Go's [int64]: [ChunkSize], [ContentLength] and the loop variables of
    [handleRefracted].  Arithmetic wraps around in two's complement. *)
Module Int64.
Definition min_int : Z := - 2 ^ 63.
Definition max_int : Z := 2 ^ 63 - 1.
Definition wrap (z : Z) : Z := (z + 2 ^ 63) mod 2 ^ 64 - 2 ^ 63.
Definition add (a b : Z) : Z := wrap (a + b).
Definition in_range (z : Z) : Prop := min_int <= z <= max_int.
End Int64.

(** ** HTTP data *)

Inductive Method := MethodGet | MethodHead.

Definition StatusOK : Z := 200.
Definition StatusPartialContent : Z := 206.
Definition StatusNotFound : Z := 404.
Definition StatusInternalServerError : Z := 500.
Definition StatusBadGateway : Z := 502.

(** [http.Header]: [Add] appends a value under a key, [Get] returns the first
    value stored under the key, or the empty string.  Both sides canonicalise
    the key in the same way, so keys are compared as the source writes them. *)
Definition Header := list (string * string).

Definition header_add (k v : string) (h : Header) : Header := h ++ [(k, v)].

Definition header_get (k : string) (h : Header) : string :=
  match find (fun kv => String.eqb (fst kv) k) h with
  | Some kv => snd kv
  | None => ""%string
  end.

Record Request := mkRequest {
  req_method : Method;
  req_url : string;
  req_header : Header
}.

Definition req_add (k v : string) (r : Request) : Request :=
  mkRequest (req_method r) (req_url r) (header_add k v (req_header r)).

(** A [bytes.Buffer] of the pool; [buf_bytes] is its unread content. *)
Record Buffer := mkBuffer {
  buf_id : nat;
  buf_bytes : list Byte.byte
}.

(** [response.Body] is either the body handed over by the transport (its
    bytes, and whether reading them reaches EOF without an error), or the
    [stats.ReaderWrapper] that [request] installs over a pooled buffer, whose
    [OnDone] puts the buffer back. *)
Inductive Body :=
| NetBody (data : list Byte.byte) (read_ok : bool)
| ReaderWrapper (Underlying : Buffer).

Record Response := mkResponse {
  StatusCode : Z;
  ContentLength : Z;
  RespBody : Body
}.

Inductive error :=
| ErrTransport
| ErrStatus (got expected : Z)
| ErrCopy
| ErrTruncated (expected read : Z).

(** What one call of [rf.Pool.Do] yields. *)
Inductive DoResult :=
| DoErr
| DoOk (status : Z) (length : Z) (data : list Byte.byte) (read_ok : bool).

Record responseErr := mkResponseErr {
  err : option error;
  response : option Response
}.

(** ** Configuration *)

Record Config := mkConfig {
  ChunkSize : Z;
  ChunkTimeout : Z
}.

Definition defaultChunkSize : Z := Z.shiftl 4 20.
Definition defaultChunkTimeout : Z := 5 * 1000000000.

Definition WithDefaults (c : Config) : Config :=
  let c := if ChunkSize c =? 0 then mkConfig defaultChunkSize (ChunkTimeout c) else c in
  let c := if ChunkTimeout c =? 0 then mkConfig (ChunkSize c) defaultChunkTimeout else c in
  c.

(** The mirror pool is an external collaborator: [Pool rf r n] is the outcome
    of the [n]-th attempt of [rf.Pool.Do] on the request [r]. *)
Record Refractor := mkRefractor {
  rf_config : Config;
  Pool : Request -> nat -> DoResult
}.

Definition New (c : Config) (pool : Request -> nat -> DoResult) : Refractor :=
  mkRefractor (WithDefaults c) pool.

(** What the handler cannot decide by itself: whether [http.NewRequest]
    accepts a URL, and whether the client connection takes the [i]-th body
    copy in full ([None]) or breaks after [k] bytes ([Some k]). *)
Record Env := mkEnv {
  url_ok : string -> bool;
  client : nat -> option nat
}.

Definition NewRequest (env : Env) (m : Method) (url : string) : option Request :=
  if url_ok env url then Some (mkRequest m url []) else None.

(** ** The world: buffer pool and trace *)

Inductive Event :=
| EvDo (r : Request)
| EvBodyClose
| EvGet (b : nat)
| EvReset (b : nat)
| EvFill (b : nat) (data : list Byte.byte)
| EvDrain (b : nat)
| EvPut (b : nat)
| EvHeaderAdd (k v : string)
| EvWriteHeader (code : Z)
| EvWrite (data : list Byte.byte)
| EvPanic.

(** [sync.Pool] with [New] allocating an empty buffer: [Get] hands out an idle
    buffer when there is one and a new one otherwise. *)
Record BufPool := mkPool {
  idle : list Buffer;
  fresh : nat
}.

Record World := mkWorld {
  buffers : BufPool;
  trace : list Event
}.

Definition M (A : Type) : Type := World -> A * World.

Definition ret {A} (a : A) : M A := fun w => (a, w).

Definition bind {A B} (m : M A) (k : A -> M B) : M B :=
  fun w => let '(a, w') := m w in k a w'.

Notation "'let*' x ':=' m 'in' k" := (bind m (fun x => k))
  (at level 10, x name, m at level 100, k at level 200).

Definition emit (e : Event) : M unit :=
  fun w => (tt, mkWorld (buffers w) (trace w ++ [e])).

Definition buffers_Get : M Buffer :=
  fun w =>
    match idle (buffers w) with
    | b :: rest =>
        (b, mkWorld (mkPool rest (fresh (buffers w))) (trace w ++ [EvGet (buf_id b)]))
    | [] =>
        let n := fresh (buffers w) in
        (mkBuffer n [], mkWorld (mkPool [] (S n)) (trace w ++ [EvGet n]))
    end.

Definition buffers_Put (b : Buffer) : M unit :=
  fun w =>
    (tt, mkWorld (mkPool (b :: idle (buffers w)) (fresh (buffers w)))
                 (trace w ++ [EvPut (buf_id b)])).

Definition buf_Reset (b : Buffer) : M Buffer :=
  let* _ := emit (EvReset (buf_id b)) in ret (mkBuffer (buf_id b) []).

(** [io.Copy(buf, body)]: appends what the body delivers. *)
Definition buf_Fill (b : Buffer) (data : list Byte.byte) : M Buffer :=
  let* _ := emit (EvFill (buf_id b) data) in
  ret (mkBuffer (buf_id b) (buf_bytes b ++ data)).

(** ** One attempt: [request] *)

Definition expectedStatus (r : Request) : Z :=
  if String.eqb (header_get "range" (req_header r)) "" then StatusOK
  else StatusPartialContent.

Definition is_head (m : Method) : bool :=
  match m with MethodHead => true | MethodGet => false end.

(** The goroutine that [request] starts before the copy, which waits for the
    context and then closes the body, is no actor of its own here.  What it
    does to the attempt is in the answer of the mirror pool: a body closed at
    the deadline is a body whose read fails ([read_ok] is [false]).  Its own
    call of [Close], which comes some time after the context is done, is not
    recorded: [EvBodyClose] is the deferred [response.Body.Close()]. *)
Definition request (r : Request) (d : DoResult) : M (Response + error) :=
  let* _ := emit (EvDo r) in
  match d with
  | DoErr => ret (inr ErrTransport)
  | DoOk status len data read_ok =>
      if negb (status =? expectedStatus r) then
        let* _ := emit EvBodyClose in ret (inr (ErrStatus status (expectedStatus r)))
      else if is_head (req_method r) then
        let* _ := emit EvBodyClose in ret (inl (mkResponse status len (NetBody data read_ok)))
      else
        let* buf := buffers_Get in
        let* buf := buf_Reset buf in
        let* buf := buf_Fill buf data in
        let n := Z.of_nat (length data) in
        if negb read_ok then
          let* _ := emit EvBodyClose in ret (inr ErrCopy)
        else if negb (n =? len) then
          let* _ := emit EvBodyClose in ret (inr (ErrTruncated len n))
        else
          let* _ := emit EvBodyClose in
          ret (inl (mkResponse status len (ReaderWrapper buf)))
  end.

(** ** The retry loop of [retryRequest] *)

Definition retries : nat := 5.

Inductive Iter :=
| Continue (try : nat)
| Send (res : responseErr).

(** One turn of the [for] loop in the goroutine of [retryRequest], entered
    with the counter at [try]. *)
Definition retry_iter (rf : Refractor) (r : Request) (try : nat) : M Iter :=
  let try := S try in
  let* res := request r (Pool rf r try) in
  match res with
  | inr e =>
      if (try <? retries)%nat then ret (Continue try)
      else ret (Send (mkResponseErr (Some e) None))
  | inl resp => ret (Send (mkResponseErr None (Some resp)))
  end.

(** [<-rf.retryRequest(r)] where the caller receives at once: the goroutine
    runs alone up to its send.  [None] stands for a loop that has not sent
    within [fuel] turns. *)
Fixpoint retry_loop (fuel : nat) (rf : Refractor) (r : Request) (try : nat)
  : M (option responseErr) :=
  match fuel with
  | O => ret None
  | S fuel =>
      let* it := retry_iter rf r try in
      match it with
      | Continue try => retry_loop fuel rf r try
      | Send res => ret (Some res)
      end
  end.

Definition retryRequest (rf : Refractor) (r : Request) : M (option responseErr) :=
  retry_loop retries rf r 0.

(** ** Writing to the client *)

(** Modelled from the spec: [stats.ReaderWrapper] is not part of this file.
    Its completion callback [OnDone] fires once the caller has finished
    reading the body, and that callback is the [rf.buffers.Put(buf)] of
    [request]; [Close] on the wrapper does nothing to the pool.

    [io.Copy(rw, body)] for the [i]-th copy of a handler: the bytes that reach
    the client are written, and the result tells whether the copy returned
    without an error.  A body of the transport has been closed by the deferred
    [Close] of [request], so reading it fails at once. *)
Definition io_Copy_rw (env : Env) (i : nat) (body : Body) : M bool :=
  match body with
  | NetBody _ _ => ret false
  | ReaderWrapper buf =>
      match client env i with
      | None =>
          let* _ := emit (EvWrite (buf_bytes buf)) in
          let* _ := emit (EvDrain (buf_id buf)) in
          let* _ := buffers_Put (mkBuffer (buf_id buf) []) in
          ret true
      | Some k =>
          let* _ := emit (EvWrite (take k (buf_bytes buf))) in
          ret false
      end
  end.

(** ** Handlers *)

(** Where a handler stands: blocked in the receive loop of [handleRefracted]
    on the channel of chunk [i], returned, unwound by a nil dereference,
    blocked on a channel nobody sends on, or still in the launch loop when the
    fuel ran out. *)
Inductive HState :=
| Receiving (i : nat)
| Returned
| Panicked
| Blocked
| Launching.

(** [strings.HasSuffix]. *)
Definition HasSuffix (s suffix : string) : bool :=
  let n := String.length s in
  let m := String.length suffix in
  (m <=? n)%nat && String.eqb (substring (n - m) m s) suffix.

(** [fmt.Sprint] and the verb [%d] on an [int64]. *)
Definition Sprint (z : Z) : string := NilZero.string_of_int (Z.to_int z).

Definition range_value (start end_ : Z) : string :=
  ("bytes=" ++ Sprint start ++ "-" ++ Sprint end_)%string.

Definition handlePlain (env : Env) (rf : Refractor) (url : string) : M HState :=
  match NewRequest env MethodGet url with
  | None =>
      let* _ := emit (EvWriteHeader StatusInternalServerError) in ret Returned
  | Some req =>
      let* br := retryRequest rf req in
      match br with
      | None => ret Blocked
      | Some br =>
          match err br with
          | Some _ =>
              let* _ := emit (EvWriteHeader StatusBadGateway) in ret Returned
          | None =>
              match response br with
              | None => let* _ := emit EvPanic in ret Panicked
              | Some resp =>
                  let* _ := io_Copy_rw env 0 (RespBody resp) in ret Returned
              end
          end
      end
  end.

(** A goroutine started by [retryRequest]: in its retry loop with the counter
    at [try], blocked on [respChan <- res], or gone. *)
Inductive Task :=
| Fetching (try : nat)
| Sending (res : responseErr)
| Exited.

(** One chunk of [handleRefracted]: its inclusive byte range, the request
    built for it and the goroutine behind its channel. *)
Record Chunk := mkChunk {
  c_start : Z;
  c_end : Z;
  c_req : Request;
  c_task : Task
}.

Inductive Launch :=
| LaunchDone (responseChannels : list Chunk)
| LaunchBadRequest (responseChannels : list Chunk)
| LaunchMore (responseChannels : list Chunk).

(** The [for start < size] loop of [handleRefracted]. *)
Fixpoint launch (fuel : nat) (env : Env) (rf : Refractor) (url : string)
    (size start : Z) (responseChannels : list Chunk) : Launch :=
  if start <? size then
    match fuel with
    | O => LaunchMore responseChannels
    | S fuel =>
        let end_ := Int64.add start (ChunkSize (rf_config rf)) in
        let end_ := if end_ >? size then size else end_ in
        match NewRequest env MethodGet url with
        | None => LaunchBadRequest responseChannels
        | Some req =>
            let req := req_add "range" (range_value start end_) req in
            let req := req_add "accept-encoding" "identity" req in
            launch fuel env rf url size (Int64.add end_ 1)
                   (responseChannels ++ [mkChunk start end_ req (Fetching 0)])
        end
    end
  else LaunchDone responseChannels.

(** [handleRefracted] up to its receive loop: the probe, the launch loop and
    the [content-length] header. *)
Definition handleRefracted_launch (fuel : nat) (env : Env) (rf : Refractor)
    (url : string) : M (HState * list Chunk) :=
  match NewRequest env MethodHead url with
  | None =>
      let* _ := emit (EvWriteHeader StatusInternalServerError) in ret (Returned, [])
  | Some headReq =>
      let headReq := req_add "accept-encoding" "identity" headReq in
      let* br := retryRequest rf headReq in
      match br with
      | None => ret (Blocked, [])
      | Some br =>
          match response br with
          | None => let* _ := emit EvPanic in ret (Panicked, [])
          | Some resp =>
              let size := ContentLength resp in
              match launch fuel env rf url size 0 [] with
              | LaunchMore cs => ret (Launching, cs)
              | LaunchBadRequest cs =>
                  let* _ := emit (EvWriteHeader StatusInternalServerError) in
                  ret (Returned, cs)
              | LaunchDone cs =>
                  let* _ := emit (EvHeaderAdd "content-length" (Sprint size)) in
                  ret (Receiving 0, cs)
              end
          end
      end
  end.

(** The body of the receive loop for the value [res] received from the
    channel of chunk [i]. *)
Definition consume (env : Env) (i : nat) (res : responseErr) : M HState :=
  match err res with
  | Some _ =>
      let* _ := emit (EvWriteHeader StatusInternalServerError) in ret Returned
  | None =>
      match response res with
      | None => let* _ := emit EvPanic in ret Panicked
      | Some resp =>
          let* ok := io_Copy_rw env i (RespBody resp) in
          if ok then ret (Receiving (S i))
          else
            let* _ := emit (EvWriteHeader StatusInternalServerError) in
            ret Returned
      end
  end.

(** ** Goroutines and channels *)

Record Sys := mkSys {
  chunks : list Chunk;
  handler : HState;
  world : World
}.

Inductive Actor :=
| ATask (j : nat)
| AHandler.

Definition set_task (c : Chunk) (t : Task) : Chunk :=
  mkChunk (c_start c) (c_end c) (c_req c) t.

(** One scheduling step.  A goroutine in its loop makes one attempt.  The
    channels are unbuffered: a send completes only together with the receive
    of the handler, which then runs the loop body up to the next receive.
    [None] when the actor cannot move. *)
Definition step (env : Env) (rf : Refractor) (a : Actor) (s : Sys) : option Sys :=
  match a with
  | ATask j =>
      match chunks s !! j with
      | Some c =>
          match c_task c with
          | Fetching try =>
              let '(it, w) := retry_iter rf (c_req c) try (world s) in
              let t := match it with
                       | Continue try => Fetching try
                       | Send res => Sending res
                       end in
              Some (mkSys (<[j := set_task c t]> (chunks s)) (handler s) w)
          | _ => None
          end
      | None => None
      end
  | AHandler =>
      match handler s with
      | Receiving i =>
          match chunks s !! i with
          | None => Some (mkSys (chunks s) Returned (world s))
          | Some c =>
              match c_task c with
              | Sending res =>
                  let '(h, w) := consume env i res (world s) in
                  Some (mkSys (<[i := set_task c Exited]> (chunks s)) h w)
              | _ => None
              end
          end
      | _ => None
      end
  end.

(** Runs a schedule; an actor that cannot move is skipped. *)
Fixpoint exec (env : Env) (rf : Refractor) (sched : list Actor) (s : Sys) : Sys :=
  match sched with
  | [] => s
  | a :: sched =>
      exec env rf sched (match step env rf a s with Some s' => s' | None => s end)
  end.

Definition handleRefracted (fuel : nat) (env : Env) (rf : Refractor)
    (url : string) (sched : list Actor) (w : World) : Sys :=
  let '((h, cs), w') := handleRefracted_launch fuel env rf url w in
  exec env rf sched (mkSys cs h w').

Definition ServeHTTP (fuel : nat) (env : Env) (rf : Refractor)
    (url : string) (sched : list Actor) (w : World) : Sys :=
  if HasSuffix url ".db.sig" then
    let '(_, w') := emit (EvWriteHeader StatusNotFound) w in mkSys [] Returned w'
  else if HasSuffix url ".db" then
    let '(h, w') := handlePlain env rf url w in mkSys [] h w'
  else handleRefracted fuel env rf url sched w.

(** ** What the client and the mirrors observe *)

(** The requests that reached [rf.Pool.Do], in order. *)
Definition do_calls (t : list Event) : list Request :=
  omap (fun e => match e with EvDo r => Some r | _ => None end) t.

(** The bytes passed to [rw.Write]. *)
Definition written (t : list Event) : list Byte.byte :=
  concat (omap (fun e => match e with EvWrite d => Some d | _ => None end) t).

(** The status line of [net/http]: the first [WriteHeader] fixes it, a [Write]
    before any [WriteHeader] fixes it to 200, and so does returning without
    either; a handler that panics before that sends none.  [io.Copy] calls
    [Write] only with bytes in hand, so an empty [EvWrite] is no call. *)
Fixpoint status_line (t : list Event) : option Z :=
  match t with
  | [] => Some StatusOK
  | EvWriteHeader code :: _ => Some code
  | EvWrite (_ :: _) :: _ => Some StatusOK
  | EvPanic :: _ => None
  | _ :: t => status_line t
  end.

Definition write_headers (t : list Event) : list Z :=
  omap (fun e => match e with EvWriteHeader c => Some c | _ => None end) t.

Definition response_headers (t : list Event) : Header :=
  omap (fun e => match e with EvHeaderAdd k v => Some (k, v) | _ => None end) t.

Definition ranges (cs : list Chunk) : list (Z * Z) :=
  map (fun c => (c_start c, c_end c)) cs.

Definition empty_world : World := mkWorld (mkPool [] 0) [].

(** * Properties *)

(** ** The launch loop *)

Lemma wrap_in_range z : Int64.in_range z -> Int64.wrap z = z.
Proof.
  unfold Int64.in_range, Int64.wrap, Int64.min_int, Int64.max_int. intros H.
  rewrite Z.mod_small; lia.
Qed.

(** The shape of the ranges the loop produces from [start] on: each chunk
    starts where the loop stands, ends [ChunkSize] bytes further or at [size],
    whichever is smaller, and the next one starts one past that end. *)
Fixpoint chain (C size start : Z) (l : list (Z * Z)) : Prop :=
  match l with
  | [] => size <= start
  | (s, e) :: l =>
      s = start /\ start < size /\ e = Z.min (start + C) size /\ chain C size (e + 1) l
  end.

Lemma ranges_app cs ds : ranges (cs ++ ds) = ranges cs ++ ranges ds.
Proof. unfold ranges. apply map_app. Qed.

Lemma launch_chain env rf url size :
  url_ok env url = true ->
  0 < ChunkSize (rf_config rf) ->
  size + ChunkSize (rf_config rf) <= Int64.max_int ->
  forall fuel start acc,
    0 <= start ->
    (Z.to_nat (size - start) <= fuel)%nat ->
    exists cs,
      launch fuel env rf url size start acc = LaunchDone (acc ++ cs)
      /\ chain (ChunkSize (rf_config rf)) size start (ranges cs).
Proof.
  intros Hurl HC Hmax. set (C := ChunkSize (rf_config rf)) in *.
  assert (Hmx : Int64.max_int = 9223372036854775807) by reflexivity.
  induction fuel as [|fuel IH]; intros start acc Hs Hfuel.
  - exists []. simpl. destruct (start <? size) eqn:E; [apply Z.ltb_lt in E; lia|].
    apply Z.ltb_ge in E. rewrite app_nil_r. split; [done|simpl; lia].
  - simpl. destruct (start <? size) eqn:E.
    + apply Z.ltb_lt in E. fold C.
      unfold NewRequest. rewrite Hurl.
      assert (Hadd : Int64.add start C = start + C).
      { apply wrap_in_range. unfold Int64.in_range, Int64.min_int. lia. }
      rewrite Hadd.
      set (e := if start + C >? size then size else start + C).
      assert (He : e = Z.min (start + C) size).
      { subst e. destruct (start + C >? size) eqn:G.
        - apply Z.gtb_lt in G. lia.
        - rewrite Z.gtb_ltb in G. apply Z.ltb_ge in G. lia. }
      assert (Hadd1 : Int64.add e 1 = e + 1).
      { apply wrap_in_range. unfold Int64.in_range, Int64.min_int. lia. }
      rewrite Hadd1.
      destruct (IH (e + 1) (acc ++
        [mkChunk start e
           (req_add "accept-encoding" "identity"
              (req_add "range" (range_value start e) (mkRequest MethodGet url [])))
           (Fetching 0)])) as (cs & Hl & Hc); [lia|lia|].
      eexists (_ :: cs). split.
      * rewrite Hl. rewrite <- app_assoc. reflexivity.
      * simpl. repeat split; try done.
    + apply Z.ltb_ge in E. exists []. rewrite app_nil_r. split; [done|simpl; lia].
Qed.

(** Every chunk but the last carries [ChunkSize + 1] bytes, so the loop makes
    ceil(size / (ChunkSize + 1)) of them. *)
Lemma chain_length C size start l :
  0 < C -> 0 <= start <= size + 1 -> chain C size start l ->
  Z.of_nat (length l) = (size - start + C) / (C + 1).
Proof.
  intros HC. revert start. induction l as [|[s e] l IH]; intros start Hs; cbn [chain length].
  - intros Hle. symmetry. apply Z.div_small. lia.
  - intros (-> & Hlt & -> & Hc).
    rewrite Nat2Z.inj_succ, (IH (Z.min (start + C) size + 1)) by (done || lia).
    destruct (Z.le_gt_cases size (start + C)) as [Hend|Hend].
    + rewrite Z.min_r by lia.
      replace (size - (size + 1) + C) with (C - 1) by lia.
      rewrite Z.div_small by lia.
      apply (Z.div_unique _ _ _ (size - start - 1)); lia.
    + rewrite Z.min_l by lia.
      replace (size - start + C) with (1 * (C + 1) + (size - (start + C + 1) + C)) by lia.
      rewrite Z.div_add_l by lia. lia.
Qed.

(** The chunks are contiguous and they end at [size] or at [size - 1]. *)
Lemma chain_last C size start l :
  0 < C -> chain C size start l -> l <> [] ->
  exists s e, last l = Some (s, e) /\ (e = size \/ e = size - 1) /\ s <= e.
Proof.
  intros HC. revert start. induction l as [|[s e] l IH]; intros start Hc Hne; [done|].
  simpl in Hc. destruct Hc as (-> & Hlt & -> & Hc).
  destruct l as [|p l].
  - simpl in Hc. exists start, (Z.min (start + C) size). split; [done|]. lia.
  - destruct (IH _ Hc ltac:(done)) as (s' & e' & Hl & He).
    exists s', e'. split; [|done]. rewrite <- Hl. reflexivity.
Qed.

(** When the last chunk ends at [size - 1], the size is a multiple of
    [ChunkSize + 1]; for every other size it ends at [size], one byte past
    the resource. *)
Lemma chain_last_exact C size start l s e :
  0 < C -> chain C size start l -> last l = Some (s, e) -> e = size - 1 ->
  (size - start) mod (C + 1) = 0.
Proof.
  intros HC. revert start. induction l as [|[s0 e0] l IH]; intros start Hc Hl He; [done|].
  simpl in Hc. destruct Hc as (-> & Hlt & -> & Hc).
  destruct l as [|p l].
  - simpl in Hl. injection Hl as <- <-.
    assert (size = start + C + 1) by lia. subst size.
    replace (start + C + 1 - start) with (1 * (C + 1)) by lia.
    apply Z.mod_mul. lia.
  - assert (Hl' : last (p :: l) = Some (s, e)) by (rewrite <- Hl; reflexivity).
    pose proof (IH _ Hc Hl' He) as Hm.
    destruct p as [s1 e1]. cbn [chain] in Hc. destruct Hc as (_ & Hlt1 & _).
    rewrite Z.min_l in Hm by lia.
    replace (size - start) with (size - (start + C + 1) + 1 * (C + 1)) by lia.
    rewrite Z.mod_add by lia. exact Hm.
Qed.

(** ** One attempt *)

Lemma header_get_absent k (h : Header) :
  (forall v, ~ In (k, v) h) -> header_get k h = ""%string.
Proof.
  intros Hno. unfold header_get.
  destruct (find _ h) as [[k' v]|] eqn:F; [|done].
  apply find_some in F as [Hin Heq]. simpl in Heq.
  apply String.eqb_eq in Heq. subst k'. destruct (Hno v Hin).
Qed.

Lemma range_value_nonempty s e : range_value s e <> ""%string.
Proof. unfold range_value. simpl. discriminate. Qed.

Lemma expectedStatus_plain m url : expectedStatus (mkRequest m url []) = StatusOK.
Proof. reflexivity. Qed.

Lemma expectedStatus_ranged m url s e :
  expectedStatus
    (req_add "accept-encoding" "identity"
       (req_add "range" (range_value s e) (mkRequest m url [])))
  = StatusPartialContent.
Proof.
  unfold expectedStatus, req_add, header_add, header_get. simpl.
  destruct (String.eqb (range_value s e) "") eqn:E; [|done].
  apply String.eqb_eq in E. destruct (range_value_nonempty _ _ E).
Qed.

(** C8: the expected status of an attempt is 200 for a request without a
    range header and 206 for one whose range header has a value; an answer
    with another status makes the attempt fail with the status-mismatch
    error, the body is closed, and the pool is left as it was: the only
    events are the call of the mirror pool and the closing of the body. *)
Theorem request_status_mismatch (r : Request) status len data read_ok (w : World) :
  status <> expectedStatus r ->
  ((forall v, ~ In ("range"%string, v) (req_header r)) -> expectedStatus r = StatusOK)
  /\ (header_get "range" (req_header r) <> ""%string ->
      expectedStatus r = StatusPartialContent)
  /\ request r (DoOk status len data read_ok) w =
       (inr (ErrStatus status (expectedStatus r)),
        mkWorld (buffers w) (trace w ++ [EvDo r; EvBodyClose])).
Proof.
  intros Hne. split; [|split].
  - intros Hno. unfold expectedStatus. rewrite (header_get_absent _ _ Hno). reflexivity.
  - intros Hv. unfold expectedStatus.
    destruct (String.eqb _ "") eqn:E; [|done].
    apply String.eqb_eq in E. destruct (Hv E).
  - unfold request, bind, emit, ret. simpl.
    destruct (status =? expectedStatus r) eqn:E; [apply Z.eqb_eq in E; done|].
    simpl. rewrite <- app_assoc. reflexivity.
Qed.

Lemma request_status_mismatch_witness :
  let r := req_add "range" (range_value 0 4) (mkRequest MethodGet "/core.pkg" []) in
  expectedStatus r = StatusPartialContent
  /\ request r (DoOk 200 5 [] true) empty_world =
       (inr (ErrStatus 200 206), mkWorld (mkPool [] 0) [EvDo r; EvBodyClose]).
Proof.
  intros r.
  destruct (request_status_mismatch r 200 5 [] true empty_world) as (_ & H206 & Hreq).
  - vm_compute. discriminate.
  - split.
    + apply H206. vm_compute. discriminate.
    + exact Hreq.
Defined.

(** The world after an attempt that reached the body copy: one buffer taken
    from the pool, reset, filled with what the body delivered. *)
Definition after_copy (r : Request) (data : list Byte.byte) (w : World) : Buffer * World :=
  let '(b, w1) := buffers_Get w in
  (mkBuffer (buf_id b) data,
   mkWorld (buffers w1)
     (trace w ++ [EvDo r; EvGet (buf_id b); EvReset (buf_id b);
                  EvFill (buf_id b) data; EvBodyClose])).

Lemma request_copy_world (r : Request) status len data read_ok (w : World) :
  req_method r = MethodGet -> status = expectedStatus r ->
  snd (request r (DoOk status len data read_ok) w) = snd (after_copy r data w).
Proof.
  intros Hm ->. unfold request, after_copy, bind, emit, ret, buf_Reset, buf_Fill, buffers_Get.
  simpl. rewrite Z.eqb_refl, Hm. simpl.
  destruct (idle (buffers w)) as [|b rest]; simpl;
    destruct read_ok; simpl;
    destruct (Z.of_nat (length data) =? len); simpl;
    repeat rewrite <- app_assoc; reflexivity.
Qed.



(** ** Traces *)

(** The events of a fetch attempt: they concern the mirror pool and the
    buffers, not the client connection. *)
Definition is_fetch (e : Event) : bool :=
  match e with
  | EvDo _ | EvBodyClose | EvGet _ | EvReset _ | EvFill _ _ => true
  | _ => false
  end.

Lemma do_calls_app t u : do_calls (t ++ u) = do_calls t ++ do_calls u.
Proof. apply omap_app. Qed.

Lemma written_app t u : written (t ++ u) = written t ++ written u.
Proof. unfold written. rewrite omap_app. apply concat_app. Qed.

Lemma write_headers_app t u : write_headers (t ++ u) = write_headers t ++ write_headers u.
Proof. apply omap_app. Qed.

Lemma response_headers_app t u :
  response_headers (t ++ u) = response_headers t ++ response_headers u.
Proof. apply omap_app. Qed.

Lemma fetch_written t : forallb is_fetch t = true -> written t = [].
Proof.
  induction t as [|e t IH]; [done|]. simpl. intros H.
  apply andb_true_iff in H as [He Ht]. destruct e; try done; apply (IH Ht).
Qed.

Lemma fetch_write_headers t : forallb is_fetch t = true -> write_headers t = [].
Proof.
  induction t as [|e t IH]; [done|]. simpl. intros H.
  apply andb_true_iff in H as [He Ht]. destruct e; try done; apply (IH Ht).
Qed.

Lemma fetch_response_headers t : forallb is_fetch t = true -> response_headers t = [].
Proof.
  induction t as [|e t IH]; [done|]. simpl. intros H.
  apply andb_true_iff in H as [He Ht]. destruct e; try done; apply (IH Ht).
Qed.

Lemma fetch_status_line t u :
  forallb is_fetch t = true -> status_line (t ++ u) = status_line u.
Proof.
  induction t as [|e t IH]; [done|]. simpl. intros H.
  apply andb_true_iff in H as [He Ht]. destruct e; try done; apply (IH Ht).
Qed.

Lemma forallb_app_true {A} (f : A -> bool) t u :
  forallb f t = true -> forallb f u = true -> forallb f (t ++ u) = true.
Proof. intros Ht Hu. rewrite forallb_app, Ht, Hu. reflexivity. Qed.

(** An attempt appends fetch events only, among them exactly one call of the
    mirror pool, for the request as given. *)
Lemma request_trace r d w :
  exists t, trace (snd (request r d w)) = trace w ++ t
            /\ do_calls t = [r] /\ forallb is_fetch t = true.
Proof.
  unfold request, bind, emit, ret, buf_Reset, buf_Fill, buffers_Get.
  destruct d as [|status len data read_ok]; simpl.
  - exists [EvDo r]. done.
  - destruct (status =? expectedStatus r); simpl.
    + destruct (is_head (req_method r)); simpl.
      * exists [EvDo r; EvBodyClose]. rewrite <- app_assoc. done.
      * destruct (idle (buffers w)) as [|b rest]; simpl;
          destruct read_ok; simpl;
          destruct (Z.of_nat (length data) =? len); simpl;
          eexists [EvDo r; EvGet _; EvReset _; EvFill _ _; EvBodyClose];
          repeat rewrite <- app_assoc; done.
    + exists [EvDo r; EvBodyClose]. rewrite <- app_assoc. done.
Qed.

(** What an attempt delivers is either a response or an error. *)
Definition well_formed (res : responseErr) : Prop :=
  (exists e, res = mkResponseErr (Some e) None)
  \/ (exists resp, res = mkResponseErr None (Some resp)).

Lemma retry_iter_spec rf r try w :
  exists t,
    trace (snd (retry_iter rf r try w)) = trace w ++ t
    /\ do_calls t = [r] /\ forallb is_fetch t = true
    /\ match fst (retry_iter rf r try w) with
       | Continue try' => try' = S try /\ (S try < retries)%nat
       | Send res =>
           well_formed res /\ (err res <> None -> (retries <= S try)%nat)
       end.
Proof.
  destruct (request_trace r (Pool rf r (S try)) w) as (t & Ht & Hd & Hf).
  exists t. unfold retry_iter, bind.
  destruct (request r (Pool rf r (S try)) w) as [[resp|e] w'] eqn:E; simpl in *.
  - repeat split; try done. right. eauto.
  - destruct (S try <? retries)%nat eqn:L; simpl.
    + apply Nat.ltb_lt in L. done.
    + apply Nat.ltb_ge in L. repeat split; try done. left. eauto.
Qed.

(** The retry loop sends after at most five attempts, each a call of the
    mirror pool for the same request, and an error only after the fifth. *)
Lemma retry_loop_spec rf r : forall fuel try w,
  (retries <= S fuel + try)%nat ->
  exists res t k,
    fst (retry_loop (S fuel) rf r try w) = Some res
    /\ trace (snd (retry_loop (S fuel) rf r try w)) = trace w ++ t
    /\ do_calls t = repeat r k /\ (1 <= k)%nat
    /\ (k + try <= Nat.max retries (S try))%nat
    /\ forallb is_fetch t = true
    /\ well_formed res
    /\ (err res <> None -> (retries <= k + try)%nat).
Proof.
  induction fuel as [|fuel IH]; intros try w Hfuel.
  - destruct (retry_iter_spec rf r try w) as (t & Ht & Hd & Hf & Hit).
    cbn [retry_loop]. unfold bind.
    destruct (retry_iter rf r try w) as [[try'|res] w'] eqn:E; simpl in *.
    + lia.
    + exists res, t, 1%nat. destruct Hit as [Hwf He].
      repeat split; try done; try (unfold retries in *; lia);
        intros H; specialize (He H); unfold retries in *; lia.
  - destruct (retry_iter_spec rf r try w) as (t & Ht & Hd & Hf & Hit).
    remember (S fuel) as f1.
    cbn [retry_loop]. unfold bind.
    destruct (retry_iter rf r try w) as [[try'|res] w'] eqn:E; simpl in *.
    + destruct Hit as [-> Hlt]. subst f1.
      destruct (IH (S try) w' ltac:(lia)) as (res & t' & k & H1 & H2 & H3 & H4 & H5 & H6 & H7 & H8).
      exists res, (t ++ t'), (S k). rewrite H2, Ht, <- app_assoc.
      rewrite do_calls_app, Hd, H3.
      repeat split; try done; try (unfold retries in *; lia);
        try (apply forallb_app_true; done).
      intros H; specialize (H8 H); unfold retries in *; lia.
    + exists res, t, 1%nat. destruct Hit as [Hwf He].
      repeat split; try done; try (unfold retries in *; lia);
        intros H; specialize (He H); unfold retries in *; lia.
Qed.

Lemma retryRequest_spec rf r w :
  exists res t k,
    retryRequest rf r w = (Some res, mkWorld (buffers (snd (retryRequest rf r w))) (trace w ++ t))
    /\ do_calls t = repeat r k /\ (1 <= k <= retries)%nat
    /\ forallb is_fetch t = true
    /\ well_formed res
    /\ (err res <> None -> k = retries).
Proof.
  unfold retryRequest.
  destruct (retry_loop_spec rf r 4 0 w ltac:(unfold retries; lia))
    as (res & t & k & H1 & H2 & H3 & H4 & H5 & H6 & H7 & H8).
  exists res, t, k. change (S 4) with retries in *.
  destruct (retry_loop retries rf r 0 w) as [o w'] eqn:E. simpl in *.
  subst o. rewrite <- H2. destruct w'. simpl.
  repeat split; try done; try (unfold retries in *; lia);
    intros H; specialize (H8 H); unfold retries in *; lia.
Qed.

(** ** The single-stream fetcher and the router *)




Definition env_ok : Env := mkEnv (fun _ => true) (fun _ => None).

(** A mirror pool without a working mirror. *)
Definition rf_down : Refractor := mkRefractor (mkConfig 4 5) (fun _ _ => DoErr).


(** ** The probe *)

Definition headReq (url : string) : Request :=
  req_add "accept-encoding" "identity" (mkRequest MethodHead url []).

Lemma exec_stuck env rf sched s :
  (forall a, step env rf a s = None) -> exec env rf sched s = s.
Proof.
  intros Hs. induction sched as [|a sched IH]; [done|].
  simpl. rewrite Hs. exact IH.
Qed.

Lemma step_no_chunks env rf a h w :
  (forall i, h <> Receiving i) -> step env rf a (mkSys [] h w) = None.
Proof.
  intros Hh. destruct a as [j|]; simpl; [done|].
  destruct h; try done. destruct (Hh i eq_refl).
Qed.

(** When the probe gives up, [handleRefracted] reads the content length of a
    nil response: the handler unwinds before any call on the response writer
    and before the launch loop. *)
Lemma handleRefracted_probe_failure fuel env rf url sched w res :
  url_ok env url = true ->
  fst (retryRequest rf (headReq url) w) = Some res ->
  err res <> None ->
  let s := handleRefracted fuel env rf url sched w in
  handler s = Panicked /\ chunks s = []
  /\ exists t, trace (world s) = trace w ++ t ++ [EvPanic]
               /\ do_calls t = repeat (headReq url) retries
               /\ forallb is_fetch t = true.
Proof.
  intros Hurl Hres Herr. unfold handleRefracted, handleRefracted_launch, NewRequest.
  rewrite Hurl. fold (headReq url).
  destruct (retryRequest_spec rf (headReq url) w)
    as (res' & t & k & Hr & Hd & Hk & Hf & Hwf & He).
  rewrite Hr in Hres. cbn [fst] in Hres. injection Hres as ->.
  unfold bind. rewrite Hr.
  destruct Hwf as [[e ->]|[resp ->]]; [|done]. cbn [response].
  unfold emit, ret. cbn [trace buffers].
  rewrite exec_stuck by (intros a; apply step_no_chunks; done).
  cbn [handler chunks world trace]. repeat split.
  exists t. rewrite app_assoc, Hd, (He Herr). done.
Qed.

(** C3: a request for [/linux.pkg] goes to the chunked fetcher; with every
    mirror failing the probe gives up after five HEAD requests, and the
    handler then unwinds on the nil response: no [WriteHeader] is ever called,
    so no 502 (and no status line at all) reaches the client.  No chunk
    fetch is issued. *)
Theorem probe_failure_sends_no_502 (sched : list Actor) :
  let s := ServeHTTP 8 env_ok rf_down "/linux.pkg" sched empty_world in
  handler s = Panicked
  /\ chunks s = []
  /\ do_calls (trace (world s)) = repeat (headReq "/linux.pkg") 5
  /\ write_headers (trace (world s)) = []
  /\ status_line (trace (world s)) = None.
Proof.
  intros s.
  assert (Hs : s = handleRefracted 8 env_ok rf_down "/linux.pkg" sched empty_world)
    by reflexivity.
  destruct (handleRefracted_probe_failure 8 env_ok rf_down "/linux.pkg" sched empty_world
              (mkResponseErr (Some ErrTransport) None) eq_refl eq_refl ltac:(done))
    as (Hh & Hc & t & Ht & Hd & Hf).
  rewrite <- Hs in Hh, Hc, Ht. simpl in Ht.
  rewrite Ht, do_calls_app, write_headers_app, Hd, (fetch_write_headers _ Hf),
    (fetch_status_line _ _ Hf).
  repeat split; try done.
Qed.

(** ** An empty resource *)

Definition has_handler (sched : list Actor) : bool :=
  existsb (fun a => match a with AHandler => true | ATask _ => false end) sched.

Lemma exec_no_chunks env rf sched w :
  exec env rf sched (mkSys [] (Receiving 0) w) =
    mkSys [] (if has_handler sched then Returned else Receiving 0) w.
Proof.
  induction sched as [|a sched IH]; [done|].
  destruct a as [j|]; simpl.
  - exact IH.
  - apply exec_stuck. intros a. apply step_no_chunks. done.
Qed.

Lemma launch_nothing fuel env rf url size start acc :
  size <= start -> launch fuel env rf url size start acc = LaunchDone acc.
Proof.
  intros H. destruct fuel; simpl;
    (destruct (start <? size) eqn:E; [apply Z.ltb_lt in E; lia|done]).
Qed.

(** C10: when the probe succeeds and declares a content length of zero or
    less, [handleRefracted] launches no chunk fetch (the only requests that
    reach the mirror pool are the HEAD requests of the probe), adds the
    declared value as it is under [content-length], writes no byte and calls
    no [WriteHeader], so that the client gets status 200 with an empty body;
    the handler returns at its first step. *)
Theorem empty_resource (fuel : nat) (env : Env) (rf : Refractor) (url : string)
    (sched : list Actor) (w : World) (resp : Response) :
  url_ok env url = true ->
  fst (retryRequest rf (headReq url) w) = Some (mkResponseErr None (Some resp)) ->
  ContentLength resp <= 0 ->
  let s := handleRefracted fuel env rf url sched w in
  chunks s = []
  /\ handler s = (if has_handler sched then Returned else Receiving 0)
  /\ exists t k,
       trace (world s) = trace w ++ t
       /\ do_calls t = repeat (headReq url) k
       /\ response_headers t = [("content-length"%string, Sprint (ContentLength resp))]
       /\ written t = [] /\ write_headers t = []
       /\ status_line t = Some StatusOK.
Proof.
  intros Hurl Hres Hsize. unfold handleRefracted, handleRefracted_launch, NewRequest.
  rewrite Hurl. fold (headReq url).
  destruct (retryRequest_spec rf (headReq url) w)
    as (res' & t & k & Hr & Hd & Hk & Hf & Hwf & He).
  rewrite Hr in Hres. cbn [fst] in Hres. injection Hres as ->.
  unfold bind. rewrite Hr. cbn [response].
  rewrite launch_nothing by lia.
  unfold emit, ret. cbn [trace buffers].
  rewrite exec_no_chunks. cbn [handler chunks world trace]. repeat split.
  exists (t ++ [EvHeaderAdd "content-length" (Sprint (ContentLength resp))]), k.
  rewrite app_assoc, do_calls_app, response_headers_app, written_app, write_headers_app.
  rewrite Hd, (fetch_response_headers _ Hf), (fetch_written _ Hf),
    (fetch_write_headers _ Hf), (fetch_status_line _ _ Hf).
  simpl. rewrite app_nil_r. done.
Qed.

(** A mirror pool that answers every probe with the given content length and
    every other request with the given bytes. *)
Definition rf_serving (c : Config) (size : Z) (status : Z) (body : list Byte.byte)
  : Refractor :=
  mkRefractor c (fun r _ =>
    match req_method r with
    | MethodHead => DoOk StatusOK size [] true
    | MethodGet => DoOk status (Z.of_nat (length body)) body true
    end).

Lemma empty_resource_witness :
  let s := handleRefracted 0 env_ok (rf_serving (mkConfig 4 5) (-1) 206 []) "/linux.pkg"
             [AHandler] empty_world in
  chunks s = [] /\ handler s = Returned
  /\ response_headers (trace (world s)) = [("content-length"%string, "-1"%string)]
  /\ written (trace (world s)) = []
  /\ status_line (trace (world s)) = Some 200.
Proof.
  intros s.
  destruct (empty_resource 0 env_ok (rf_serving (mkConfig 4 5) (-1) 206 []) "/linux.pkg"
              [AHandler] empty_world (mkResponse 200 (-1) (NetBody [] true)))
    as (Hc & Hh & t & k & Ht & _ & Hhd & Hw & _ & Hs).
  - reflexivity.
  - vm_compute. reflexivity.
  - simpl. lia.
  - split; [exact Hc|]. split; [exact Hh|]. vm_compute. done.
Defined.

(** ** The partition *)

(** For a positive chunk size and a size that leaves room for one chunk
    below the largest [int64], the launch loop ends and its ranges start at
    0, are contiguous, number ceil(size / (ChunkSize + 1)), and the last one
    ends at [size] unless [ChunkSize + 1] divides [size]. *)
Lemma launch_partition env rf url size :
  url_ok env url = true ->
  0 < ChunkSize (rf_config rf) -> 0 < size ->
  size + ChunkSize (rf_config rf) <= Int64.max_int ->
  forall fuel, (Z.to_nat size <= fuel)%nat ->
  exists cs,
    launch fuel env rf url size 0 [] = LaunchDone cs
    /\ chain (ChunkSize (rf_config rf)) size 0 (ranges cs)
    /\ Z.of_nat (length cs) =
         (size + ChunkSize (rf_config rf)) / (ChunkSize (rf_config rf) + 1)
    /\ exists s e, last (ranges cs) = Some (s, e)
         /\ (e = size \/ e = size - 1)
         /\ (e = size - 1 -> size mod (ChunkSize (rf_config rf) + 1) = 0).
Proof.
  intros Hurl HC Hsize Hmax fuel Hfuel.
  destruct (launch_chain env rf url size Hurl HC Hmax fuel 0 []) as (cs & Hl & Hc);
    [lia|rewrite Z.sub_0_r; done|].
  exists cs. split; [done|]. split; [done|].
  assert (H0 : 0 <= 0 <= size + 1) by lia.
  pose proof (chain_length _ _ _ _ HC H0 Hc) as Hlen.
  rewrite Z.sub_0_r in Hlen. unfold ranges in Hlen at 1. rewrite length_map in Hlen.
  split; [done|].
  assert (Hne : ranges cs <> []).
  { destruct (ranges cs); [|done]. simpl in Hc. lia. }
  destruct (chain_last _ _ _ _ HC Hc Hne) as (s & e & Hlast & He & _).
  exists s, e. split; [done|]. split; [done|]. intros He1.
  pose proof (chain_last_exact _ _ _ _ _ _ HC Hc Hlast He1) as Hm.
  rewrite Z.sub_0_r in Hm. exact Hm.
Qed.

(** C1: with the default chunk size of 4 MiB, a resource of 10 MiB is split
    into the ranges [0,4194304], [4194305,8388609], [8388610,10485760]: each
    chunk carries one byte more than the chunk size and the last range ends at
    the size, not at the size minus one.  With a chunk size of 4 a resource of
    10 bytes is split into two chunks, not into ceil(10/4) = 3. *)
Theorem partition_10MiB_overshoots :
  let rf := New (mkConfig 0 0) (Pool (rf_serving (mkConfig 0 0) 10485760 206 [])) in
  ChunkSize (rf_config rf) = 4194304
  /\ ranges (snd (fst (handleRefracted_launch 8 env_ok rf "/linux.pkg" empty_world)))
     = [(0, 4194304); (4194305, 8388609); (8388610, 10485760)]
  /\ ranges (snd (fst (handleRefracted_launch 8 env_ok rf "/linux.pkg" empty_world)))
     <> [(0, 4194303); (4194304, 8388607); (8388608, 10485759)]
  /\ ranges (snd (fst (handleRefracted_launch 8 env_ok
                         (rf_serving (mkConfig 4 5) 10 206 []) "/linux.pkg" empty_world)))
     = [(0, 4); (5, 9)].
Proof.
  intros rf. split; [reflexivity|].
  assert (H : ranges (snd (fst (handleRefracted_launch 8 env_ok rf "/linux.pkg" empty_world)))
              = [(0, 4194304); (4194305, 8388609); (8388610, 10485760)])
    by (vm_compute; reflexivity).
  split; [exact H|]. split; [rewrite H; discriminate|].
  vm_compute. reflexivity.
Qed.

(** ** What a goroutine will send *)

Definition body_bytes (b : Body) : option (list Byte.byte) :=
  match b with
  | ReaderWrapper buf => Some (buf_bytes buf)
  | NetBody _ _ => None
  end.

(** The body a received value carries for the client: the content of its
    buffer, or nothing when the value is an error. *)
Definition verdict (res : responseErr) : option (list Byte.byte) :=
  match err res with
  | Some _ => None
  | None =>
      match response res with
      | Some resp => body_bytes (RespBody resp)
      | None => None
      end
  end.

(** The verdict of the retry loop entered with the counter at [try], as the
    mirror pool alone decides it. *)
Definition run_verdict (rf : Refractor) (r : Request) (try : nat)
  : option (list Byte.byte) :=
  match fst (retry_loop (retries - try) rf r try empty_world) with
  | Some res => verdict res
  | None => None
  end.

(** The body that the retry loop fetches for a request, if it does. *)
Definition fetched (rf : Refractor) (r : Request) : option (list Byte.byte) :=
  run_verdict rf r 0.

(** The receive loop run on the verdicts of the chunks from chunk [i] on:
    the bytes it writes and the [WriteHeader] calls it makes. *)
Fixpoint reassemble (env : Env) (i : nat) (vs : list (option (list Byte.byte)))
  : list Byte.byte * list Z :=
  match vs with
  | [] => ([], [])
  | None :: _ => ([], [StatusInternalServerError])
  | Some d :: vs =>
      match client env i with
      | None => let '(bs, hs) := reassemble env (S i) vs in (d ++ bs, hs)
      | Some k => (take k d, [StatusInternalServerError])
      end
  end.

Definition abs_result (x : Response + error) : option (option (list Byte.byte)) :=
  match x with
  | inl resp => Some (body_bytes (RespBody resp))
  | inr _ => None
  end.

Definition abs_iter (it : Iter) : nat + option (list Byte.byte) :=
  match it with
  | Continue try => inl try
  | Send res => inr (verdict res)
  end.

(** Which buffer an attempt gets depends on the pool; what it delivers does
    not. *)
Lemma request_indep r d w w' :
  abs_result (fst (request r d w)) = abs_result (fst (request r d w')).
Proof.
  unfold request, bind, emit, ret, buf_Reset, buf_Fill, buffers_Get.
  destruct d as [|status len data read_ok]; simpl; [done|].
  destruct (status =? expectedStatus r); simpl; [|done].
  destruct (is_head (req_method r)); simpl; [done|].
  destruct (idle (buffers w)), (idle (buffers w')); simpl;
    destruct read_ok; simpl; try done;
    destruct (Z.of_nat (length data) =? len); simpl; done.
Qed.

Lemma retry_iter_indep rf r try w w' :
  abs_iter (fst (retry_iter rf r try w)) = abs_iter (fst (retry_iter rf r try w')).
Proof.
  pose proof (request_indep r (Pool rf r (S try)) w w') as H.
  unfold retry_iter, bind.
  destruct (request r (Pool rf r (S try)) w) as [[resp|e] w1];
    destruct (request r (Pool rf r (S try)) w') as [[resp'|e'] w1'];
    simpl in *; try done.
  - injection H as H. unfold verdict. simpl. by rewrite H.
  - destruct (S try <? retries)%nat; done.
Qed.

Lemma retry_loop_indep rf r : forall fuel try w w',
  verdict <$> fst (retry_loop fuel rf r try w)
  = verdict <$> fst (retry_loop fuel rf r try w').
Proof.
  induction fuel as [|fuel IH]; intros try w w'; [done|].
  pose proof (retry_iter_indep rf r try w w') as H.
  cbn [retry_loop]. unfold bind.
  destruct (retry_iter rf r try w) as [[t|res] w1];
    destruct (retry_iter rf r try w') as [[t'|res'] w1']; simpl in H; try done.
  - injection H as ->. apply IH.
  - injection H as H. simpl. by rewrite H.
Qed.

Lemma run_verdict_step rf r try w :
  (try < retries)%nat ->
  match fst (retry_iter rf r try w) with
  | Continue try' =>
      try' = S try /\ (try' < retries)%nat /\ run_verdict rf r try' = run_verdict rf r try
  | Send res => well_formed res /\ verdict res = run_verdict rf r try
  end.
Proof.
  intros Hlt.
  destruct (retry_iter_spec rf r try w) as (t & _ & _ & _ & Hit).
  pose proof (retry_iter_indep rf r try w empty_world) as Hi.
  assert (HV : run_verdict rf r try =
    match retry_iter rf r try empty_world with
    | (Continue try', w2) =>
        match fst (retry_loop (retries - S try) rf r try' w2) with
        | Some res => verdict res
        | None => None
        end
    | (Send res, _) => verdict res
    end).
  { unfold run_verdict.
    replace (retries - try)%nat with (S (retries - S try)) by lia.
    cbn [retry_loop]. unfold bind.
    destruct (retry_iter rf r try empty_world) as [[?|?] ?]; reflexivity. }
  rewrite HV. clear HV.
  destruct (retry_iter rf r try w) as [[t1|res] w1];
    destruct (retry_iter rf r try empty_world) as [[t2|res2] w2];
    cbn [fst snd abs_iter] in Hi, Hit |- *; try done.
  - injection Hi as <-. destruct Hit as [-> Hlt']. repeat split; try done.
    unfold run_verdict.
    pose proof (retry_loop_indep rf r (retries - S try) (S try) empty_world w2) as H.
    destruct (fst (retry_loop (retries - S try) rf r (S try) empty_world)) as [o1|];
      destruct (fst (retry_loop (retries - S try) rf r (S try) w2)) as [o2|];
      cbn in H; try done. by injection H.
  - injection Hi as Hi. destruct Hit as [Hwf _]. done.
Qed.

(** ** The receive loop against the goroutines *)

Lemma consume_spec env i res w :
  well_formed res ->
  exists t,
    trace (snd (consume env i res w)) = trace w ++ t
    /\ do_calls t = []
    /\ match verdict res with
       | Some d =>
           match client env i with
           | None =>
               fst (consume env i res w) = Receiving (S i)
               /\ written t = d /\ write_headers t = []
           | Some k =>
               fst (consume env i res w) = Returned
               /\ written t = take k d
               /\ write_headers t = [StatusInternalServerError]
           end
       | None =>
           fst (consume env i res w) = Returned
           /\ written t = [] /\ write_headers t = [StatusInternalServerError]
       end.
Proof.
  intros [[e ->]|[resp ->]]; unfold consume, verdict; cbn [err response].
  - exists [EvWriteHeader StatusInternalServerError]. done.
  - unfold io_Copy_rw, bind, emit, ret, buffers_Put.
    destruct (RespBody resp) as [data ok|buf]; cbn [body_bytes].
    + exists [EvWriteHeader StatusInternalServerError]. done.
    + destruct (client env i) as [k|]; cbn [fst snd trace buffers].
      * eexists [EvWrite _; EvWriteHeader _]. rewrite <- app_assoc.
        unfold written. simpl. rewrite app_nil_r. done.
      * eexists [EvWrite _; EvDrain _; EvPut _]. repeat rewrite <- app_assoc.
        unfold written. simpl. rewrite app_nil_r. done.
Qed.

Section Reassembly.

Variable env : Env.
Variable rf : Refractor.

Definition verdicts (cs : list Chunk) : list (option (list Byte.byte)) :=
  (fun c => fetched rf (c_req c)) <$> cs.

(** A goroutine that has not handed over its value is still heading for
    the verdict that the mirror pool fixes for its request. *)
Definition task_inv (c : Chunk) : Prop :=
  match c_task c with
  | Fetching try =>
      (try < retries)%nat /\ run_verdict rf (c_req c) try = fetched rf (c_req c)
  | Sending res => well_formed res /\ verdict res = fetched rf (c_req c)
  | Exited => False
  end.

(** The invariant of the receive loop, over the events [t] appended since
    the handler was entered with trace [t0]: standing at chunk [i], it has
    written what the loop writes for the chunks before [i], in their order,
    and called no [WriteHeader]; once returned, it has written and called
    what the loop run on the verdicts in chunk order writes and calls. *)
Definition Inv (t0 : list Event) (s : Sys) : Prop :=
  exists t,
    trace (world s) = t0 ++ t
    /\ match handler s with
       | Receiving i =>
           (i <= length (chunks s))%nat
           /\ (forall j c, chunks s !! j = Some c -> (i <= j)%nat -> task_inv c)
           /\ write_headers t = []
           /\ reassemble env 0 (verdicts (chunks s)) =
                (written t ++ fst (reassemble env i (drop i (verdicts (chunks s)))),
                 snd (reassemble env i (drop i (verdicts (chunks s)))))
       | Returned =>
           reassemble env 0 (verdicts (chunks s)) = (written t, write_headers t)
       | _ => False
       end.

Lemma verdicts_insert cs j c tk :
  cs !! j = Some c -> verdicts (<[j := set_task c tk]> cs) = verdicts cs.
Proof.
  intros H. unfold verdicts. rewrite list_fmap_insert. cbn [set_task c_req].
  apply list_insert_id. rewrite list_lookup_fmap, H. done.
Qed.

Lemma step_task_inv j s s' :
  step env rf (ATask j) s = Some s' ->
  exists c try t,
    chunks s !! j = Some c /\ c_task c = Fetching try
    /\ handler s' = handler s
    /\ trace (world s') = trace (world s) ++ t
    /\ forallb is_fetch t = true /\ do_calls t = [c_req c]
    /\ exists tk,
         chunks s' = <[j := set_task c tk]> (chunks s)
         /\ (tk <> Exited)
         /\ (forall try', tk = Fetching try' -> try' = S try)
         /\ ((try < retries)%nat ->
             run_verdict rf (c_req c) try = fetched rf (c_req c) ->
             task_inv (set_task c tk)).
Proof.
  unfold step. destruct (chunks s !! j) as [c|] eqn:Hc; [|done].
  destruct (c_task c) as [try| |] eqn:Ht; try done.
  destruct (retry_iter_spec rf (c_req c) try (world s)) as (t & Htr & Hd & Hf & Hit).
  pose proof (run_verdict_step rf (c_req c) try (world s)) as Hv.
  destruct (retry_iter rf (c_req c) try (world s)) as [it w'] eqn:E.
  intros [= <-]. exists c, try, t. cbn [fst snd handler world chunks] in *.
  repeat split; try done.
  eexists. split; [reflexivity|]. split; [|split].
  - destruct it; done.
  - intros try' Heq. destruct it as [try''|res]; [|done].
    injection Heq as ->. by destruct Hit.
  - intros Hlt Hrun. specialize (Hv Hlt). unfold task_inv. cbn [set_task c_task c_req].
    destruct it as [try'|res].
    + destruct Hv as (-> & Hlt' & Hv). split; [done|]. by rewrite Hv.
    + destruct Hv as [Hwf Hv]. split; [done|]. by rewrite Hv.
Qed.

Lemma step_inv t0 a s s' :
  Inv t0 s -> step env rf a s = Some s' -> Inv t0 s'.
Proof.
  intros (t & Htr & HI) Hstep. destruct a as [j|].
  - destruct (step_task_inv j s s' Hstep)
      as (c & try & tf & Hc & Htk & Hh & Htr' & Hf & _ & tk & Hcs & _ & _ & Htask).
    exists (t ++ tf). rewrite Htr', Htr, app_assoc. split; [done|].
    rewrite Hh, Hcs, (verdicts_insert _ _ _ _ Hc), length_insert.
    rewrite written_app, write_headers_app, (fetch_written _ Hf),
      (fetch_write_headers _ Hf), !app_nil_r.
    destruct (handler s) as [i| | | |]; try done.
    destruct HI as (Hi & Hts & Hwh & HR). repeat split; try done.
    intros j' c' Hc' Hle.
    destruct (decide (j = j')) as [<-|Hne].
    + rewrite list_lookup_insert_eq in Hc' by (eapply lookup_lt_Some; done).
      injection Hc' as <-.
      pose proof (Hts j c Hc Hle) as Hold. unfold task_inv in Hold.
      rewrite Htk in Hold. destruct Hold as [Hlt Hrun]. by apply Htask.
    + rewrite list_lookup_insert_ne in Hc' by done. by eapply Hts.
  - unfold step in Hstep.
    destruct (handler s) as [i| | | |] eqn:Hh; try done.
    destruct HI as (Hi & Hts & Hwh & HR).
    destruct (chunks s !! i) as [c|] eqn:Hc.
    + destruct (c_task c) as [|res|] eqn:Htk; try done.
      pose proof (Hts i c Hc ltac:(lia)) as Hold. unfold task_inv in Hold.
      rewrite Htk in Hold. destruct Hold as [Hwf Hv].
      destruct (consume_spec env i res (world s) Hwf) as (tc & Htc & _ & Hcons).
      destruct (consume env i res (world s)) as [h w'] eqn:E.
      injection Hstep as <-. cbn [fst snd] in *.
      exists (t ++ tc). cbn [world handler chunks].
      rewrite Htc, Htr, app_assoc. split; [done|].
      rewrite (verdicts_insert _ _ _ _ Hc), length_insert in *.
      assert (Hd : drop i (verdicts (chunks s))
                   = fetched rf (c_req c) :: drop (S i) (verdicts (chunks s))).
      { apply drop_S. unfold verdicts. rewrite list_lookup_fmap, Hc. done. }
      rewrite Hd in HR. cbn [reassemble] in HR. rewrite <- Hv in HR.
      rewrite written_app, write_headers_app, Hwh.
      destruct (verdict res) as [d|].
      * destruct (client env i) as [k|].
        -- destruct Hcons as (-> & Hw & Hhd). rewrite Hw, Hhd. exact HR.
        -- destruct Hcons as (-> & Hw & Hhd). rewrite Hw, Hhd.
           apply lookup_lt_Some in Hc.
           repeat split; try done; try lia.
           ++ intros j' c' Hc' Hle.
              rewrite list_lookup_insert_ne in Hc' by lia.
              apply (Hts j' c' Hc'). lia.
           ++ rewrite HR.
              destruct (reassemble env (S i) (drop (S i) (verdicts (chunks s)))).
              cbn [fst snd]. by rewrite app_assoc.
      * destruct Hcons as (-> & Hw & Hhd). rewrite Hw, Hhd. exact HR.
    + injection Hstep as <-. exists t. cbn [world handler chunks].
      split; [done|].
      apply lookup_ge_None in Hc.
      rewrite drop_ge in HR by (unfold verdicts; rewrite length_fmap; lia).
      cbn [reassemble fst snd] in HR. rewrite app_nil_r in HR. by rewrite Hwh.
Qed.

Lemma exec_inv t0 sched : forall s, Inv t0 s -> Inv t0 (exec env rf sched s).
Proof.
  induction sched as [|a sched IH]; intros s HI; [done|].
  cbn [exec]. apply IH.
  destruct (step env rf a s) as [s'|] eqn:E; [|done].
  by eapply step_inv.
Qed.

Lemma exec_app sched1 sched2 s :
  exec env rf (sched1 ++ sched2) s = exec env rf sched2 (exec env rf sched1 s).
Proof. revert s. induction sched1 as [|a sched1 IH]; intros s; [done|]. apply IH. Qed.

Lemma step_length a s s' :
  step env rf a s = Some s' -> length (chunks s') = length (chunks s).
Proof.
  unfold step. destruct a as [j|].
  - destruct (chunks s !! j) as [c|]; [|done].
    destruct (c_task c); try done.
    destruct (retry_iter rf (c_req c) try (world s)).
    intros [= <-]. apply length_insert.
  - destruct (handler s); try done.
    destruct (chunks s !! i) as [c|].
    + destruct (c_task c); try done.
      destruct (consume env i res (world s)).
      intros [= <-]. apply length_insert.
    + by intros [= <-].
Qed.

Lemma exec_length sched : forall s,
  length (chunks (exec env rf sched s)) = length (chunks s).
Proof.
  induction sched as [|a sched IH]; intros s; [done|].
  cbn [exec]. rewrite IH.
  destruct (step env rf a s) as [s'|] eqn:E; [|done]. by eapply step_length.
Qed.

Lemma step_handler_kept j s s' :
  step env rf (ATask j) s = Some s' -> handler s' = handler s.
Proof.
  intros H. destruct (step_task_inv j s s' H) as (c & try & t & _ & _ & Hh & _). done.
Qed.

Lemma exec_returned sched : forall s,
  handler s = Returned -> handler (exec env rf sched s) = Returned.
Proof.
  induction sched as [|a sched IH]; intros s Hs; [done|].
  cbn [exec]. apply IH.
  destruct (step env rf a s) as [s'|] eqn:E; [|done].
  destruct a as [j|].
  - by rewrite (step_handler_kept _ _ _ E).
  - unfold step in E. by rewrite Hs in E.
Qed.

(** After five turns of its loop a goroutine stands at its send. *)
Lemma drive_task t0 n : forall s i c,
  Inv t0 s -> handler s = Receiving i -> chunks s !! i = Some c ->
  (forall try, c_task c = Fetching try -> (retries <= try + n)%nat) ->
  let s' := exec env rf (repeat (ATask i) n) s in
  handler s' = Receiving i
  /\ exists c' res, chunks s' !! i = Some c' /\ c_task c' = Sending res.
Proof.
  induction n as [|n IH]; intros s i c HI Hh Hc Hn.
  - cbn [repeat exec]. split; [done|].
    destruct HI as (t & _ & HI). rewrite Hh in HI.
    destruct HI as (_ & Hts & _).
    pose proof (Hts i c Hc ltac:(lia)) as Hold. unfold task_inv in Hold.
    destruct (c_task c) as [try|res|] eqn:Htk; [|by eauto|done].
    specialize (Hn try eq_refl). lia.
  - cbn [repeat exec].
    destruct (step env rf (ATask i) s) as [s1|] eqn:E.
    + destruct (step_task_inv i s s1 E)
        as (c0 & try & tf & Hc0 & Htk & Hh1 & _ & _ & _ & tk & Hcs & _ & Hnext & _).
      rewrite Hc in Hc0. injection Hc0 as <-.
      apply (IH s1 i (set_task c tk)).
      * by eapply step_inv.
      * by rewrite Hh1.
      * rewrite Hcs. apply list_lookup_insert_eq. by eapply lookup_lt_Some.
      * intros try' Heq. cbn [set_task c_task] in Heq.
        rewrite (Hnext try' Heq). specialize (Hn try Htk). lia.
    + apply (IH s i c); try done.
      intros try Htk. exfalso. unfold step in E. rewrite Hc, Htk in E.
      by destruct (retry_iter rf (c_req c) try (world s)).
Qed.

(** From every state of the receive loop there is a way on to the end: the
    loop never waits for a value that cannot come. *)
Lemma finish t0 m : forall s i,
  Inv t0 s -> handler s = Receiving i -> length (chunks s) = (i + m)%nat ->
  exists more, handler (exec env rf more s) = Returned.
Proof.
  induction m as [|m IH]; intros s i HI Hh Hlen.
  - exists [AHandler]. cbn [exec]. unfold step. rewrite Hh.
    rewrite (proj2 (lookup_ge_None (chunks s) i)) by lia. done.
  - destruct (lookup_lt_is_Some_2 (chunks s) i ltac:(lia)) as [c Hc].
    destruct (drive_task t0 retries s i c HI Hh Hc ltac:(intros; lia))
      as (Hh1 & c1 & res & Hc1 & Htk1).
    set (s1 := exec env rf (repeat (ATask i) retries) s) in *.
    assert (HI1 : Inv t0 s1) by by apply exec_inv.
    assert (Hlen1 : length (chunks s1) = (i + S m)%nat)
      by (unfold s1; by rewrite exec_length).
    destruct (step env rf AHandler s1) as [s2|] eqn:E.
    + pose proof (step_inv t0 _ _ _ HI1 E) as HI2.
      pose proof (step_length _ _ _ E) as Hlen2.
      assert (Hh2 : handler s2 = Returned \/ handler s2 = Receiving (S i)).
      { unfold step in E. rewrite Hh1, Hc1, Htk1 in E.
        destruct HI1 as (t & _ & HI1). rewrite Hh1 in HI1.
        destruct HI1 as (_ & Hts & _).
        pose proof (Hts i c1 Hc1 ltac:(lia)) as Hold. unfold task_inv in Hold.
        rewrite Htk1 in Hold. destruct Hold as [Hwf _].
        destruct (consume_spec env i res (world s1) Hwf) as (tc & _ & _ & Hcons).
        destruct (consume env i res (world s1)) as [h w'].
        injection E as <-. cbn [handler fst] in *.
        destruct (verdict res); [destruct (client env i)|];
          destruct Hcons as (-> & _); auto. }
      destruct Hh2 as [Hret|Hrec].
      * exists (repeat (ATask i) retries ++ [AHandler]).
        rewrite exec_app. fold s1. cbn [exec]. by rewrite E.
      * destruct (IH s2 (S i) HI2 Hrec ltac:(lia)) as [more Hmore].
        exists (repeat (ATask i) retries ++ AHandler :: more).
        rewrite exec_app. fold s1. cbn [exec]. by rewrite E.
    + exfalso. unfold step in E. rewrite Hh1, Hc1, Htk1 in E.
      by destruct (consume env i res (world s1)).
Qed.

Lemma step_verdicts a s s' :
  step env rf a s = Some s' -> verdicts (chunks s') = verdicts (chunks s).
Proof.
  unfold step. destruct a as [j|].
  - destruct (chunks s !! j) as [c|] eqn:Hc; [|done].
    destruct (c_task c); try done.
    destruct (retry_iter rf (c_req c) try (world s)).
    intros [= <-]. by apply verdicts_insert.
  - destruct (handler s); try done.
    destruct (chunks s !! i) as [c|] eqn:Hc.
    + destruct (c_task c); try done.
      destruct (consume env i res (world s)).
      intros [= <-]. by apply verdicts_insert.
    + by intros [= <-].
Qed.

Lemma exec_verdicts sched : forall s,
  verdicts (chunks (exec env rf sched s)) = verdicts (chunks s).
Proof.
  induction sched as [|a sched IH]; intros s; [done|].
  cbn [exec]. rewrite IH.
  destruct (step env rf a s) as [s'|] eqn:E; [|done]. by eapply step_verdicts.
Qed.

Lemma launch_fetching url size : forall fuel start acc cs,
  launch fuel env rf url size start acc = LaunchDone cs ->
  Forall (fun c => c_task c = Fetching 0) acc ->
  Forall (fun c => c_task c = Fetching 0) cs.
Proof.
  induction fuel as [|fuel IH]; intros start acc cs; cbn [launch];
    destruct (start <? size); try done; try (by intros [= <-]).
  destruct (NewRequest env MethodGet url); [|done].
  intros H Hacc. apply (IH _ _ _ H).
  apply Forall_app. split; [done|]. by constructor.
Qed.

(** The receive loop is entered with the invariant. *)
Lemma handleRefracted_launch_inv fuel url w cs w1 :
  handleRefracted_launch fuel env rf url w = ((Receiving 0, cs), w1) ->
  Inv (trace w) (mkSys cs (Receiving 0) w1).
Proof.
  unfold handleRefracted_launch, NewRequest.
  destruct (url_ok env url); [|done]. fold (headReq url).
  destruct (retryRequest_spec rf (headReq url) w)
    as (res & t & k & Hr & _ & _ & Hf & Hwf & _).
  unfold bind. rewrite Hr.
  destruct Hwf as [[e ->]|[resp ->]]; cbn [response]; [done|].
  destruct (launch fuel env rf url (ContentLength resp) 0 []) as [cs'|cs'|cs'] eqn:L;
    try done.
  unfold emit, ret. cbn [trace buffers]. intros [= <- <-].
  exists (t ++ [EvHeaderAdd "content-length" (Sprint (ContentLength resp))]).
  cbn [world trace handler chunks]. split; [by rewrite app_assoc|].
  rewrite write_headers_app, written_app, (fetch_write_headers _ Hf),
    (fetch_written _ Hf).
  repeat split; try done; try lia.
  - intros j c Hc _.
    pose proof (launch_fetching _ _ _ _ _ _ L (Forall_nil_2 _)) as Hall.
    rewrite Forall_lookup in Hall. specialize (Hall j c Hc).
    unfold task_inv. rewrite Hall. split; [unfold retries; lia|done].
  - rewrite drop_0. cbn [written omap concat app].
    by destruct (reassemble env 0 (verdicts cs')).
Qed.

(** What [handleRefracted] has done by the end of any schedule, once its
    receive loop was entered. *)
Lemma handleRefracted_outcome fuel url w cs w1 sched :
  handleRefracted_launch fuel env rf url w = ((Receiving 0, cs), w1) ->
  let s := handleRefracted fuel env rf url sched w in
  exists t,
    trace (world s) = trace w ++ t
    /\ match handler s with
       | Receiving i =>
           write_headers t = []
           /\ reassemble env 0 (verdicts cs) =
                (written t ++ fst (reassemble env i (drop i (verdicts cs))),
                 snd (reassemble env i (drop i (verdicts cs))))
       | Returned => reassemble env 0 (verdicts cs) = (written t, write_headers t)
       | _ => False
       end.
Proof.
  intros Hl. unfold handleRefracted. rewrite Hl.
  pose proof (exec_inv _ sched _ (handleRefracted_launch_inv _ _ _ _ _ Hl)) as (t & Ht & HI).
  rewrite exec_verdicts in HI. cbn [chunks] in HI.
  exists t. split; [done|].
  destruct (handler _); try done. by destruct HI as (_ & _ & ? & ?).
Qed.

Lemma handleRefracted_finishes fuel url w cs w1 sched :
  handleRefracted_launch fuel env rf url w = ((Receiving 0, cs), w1) ->
  exists more, handler (handleRefracted fuel env rf url (sched ++ more) w) = Returned.
Proof.
  intros Hl. unfold handleRefracted. rewrite Hl.
  pose proof (exec_inv _ sched _ (handleRefracted_launch_inv _ _ _ _ _ Hl)) as HI.
  destruct (handler (exec env rf sched (mkSys cs (Receiving 0) w1))) as [i| | | |] eqn:Hh.
  - assert (Hi : (i <= length (chunks (exec env rf sched (mkSys cs (Receiving 0) w1))))%nat).
    { destruct HI as (t & _ & HI). rewrite Hh in HI. by destruct HI. }
    destruct (finish (trace w) (length (chunks (exec env rf sched (mkSys cs (Receiving 0) w1))) - i)
                _ i HI Hh ltac:(lia)) as [more Hmore].
    exists more. by rewrite exec_app.
  - exists []. by rewrite app_nil_r.
  - destruct HI as (t & _ & HI). by rewrite Hh in HI.
  - destruct HI as (t & _ & HI). by rewrite Hh in HI.
  - destruct HI as (t & _ & HI). by rewrite Hh in HI.
Qed.

End Reassembly.

Lemma reassemble_all env :
  (forall i, client env i = None) ->
  forall bodies i, reassemble env i (Some <$> bodies) = (concat bodies, []).
Proof.
  intros Hc. induction bodies as [|d bodies IH]; intros i; [done|].
  cbn [fmap list_fmap reassemble concat]. rewrite Hc.
  change (list_fmap _ _ Some bodies) with (Some <$> bodies). by rewrite IH.
Qed.

(** C2: once the receive loop is entered with chunks whose fetches deliver
    the bodies [bodies], and with a client that takes every copy, then under
    every schedule of the goroutines and the handler the bytes written so far
    are the bodies of a prefix of the chunks, concatenated in chunk order;
    when the handler has returned they are all the bodies in chunk order; and
    every schedule can be continued to the return of the handler. *)
Theorem reassembly_in_chunk_order (fuel : nat) (env : Env) (rf : Refractor)
    (url : string) (w w1 : World) (cs : list Chunk)
    (bodies : list (list Byte.byte)) (sched : list Actor) :
  handleRefracted_launch fuel env rf url w = ((Receiving 0, cs), w1) ->
  (fun c => fetched rf (c_req c)) <$> cs = Some <$> bodies ->
  (forall i, client env i = None) ->
  let s := handleRefracted fuel env rf url sched w in
  (exists k, written (trace (world s)) = written (trace w) ++ concat (take k bodies))
  /\ (handler s = Returned ->
      written (trace (world s)) = written (trace w) ++ concat bodies)
  /\ (exists more,
        handler (handleRefracted fuel env rf url (sched ++ more) w) = Returned).
Proof.
  intros Hl Hb Hc s.
  destruct (handleRefracted_outcome env rf fuel url w cs w1 sched Hl) as (t & Ht & Hout).
  fold s in Ht, Hout. unfold verdicts in Hout. rewrite Hb in Hout.
  rewrite Ht, written_app.
  split; [|split].
  - destruct (handler s) as [i| | | |]; try done.
    + destruct Hout as [_ HR]. exists i.
      rewrite <- fmap_drop, !(reassemble_all env Hc) in HR. cbn [fst snd] in HR.
      injection HR as HR.
      rewrite <- (take_drop i bodies), concat_app in HR at 1.
      apply app_inv_tail in HR. by rewrite HR.
    + rewrite (reassemble_all env Hc) in Hout. injection Hout as <- _.
      exists (length bodies). by rewrite firstn_all.
  - intros Hret. rewrite Hret in Hout.
    rewrite (reassemble_all env Hc) in Hout. by injection Hout as <- _.
  - by eapply handleRefracted_finishes.
Qed.

(** ** A resource of ten bytes in two chunks *)

Definition hello : list Byte.byte := [Byte.x68; Byte.x65; Byte.x6c; Byte.x6c; Byte.x6f].
Definition world_ : list Byte.byte := [Byte.x77; Byte.x6f; Byte.x72; Byte.x6c; Byte.x64].

(** A refractor with a chunk size of 4 whose mirrors declare ten bytes on the
    probe and answer the request for the first range with [first] and any
    other ranged request with [second], at every attempt. *)
Definition rf_two (first second : DoResult) : Refractor :=
  mkRefractor (mkConfig 4 5) (fun r _ =>
    match req_method r with
    | MethodHead => DoOk StatusOK 10 [] true
    | MethodGet =>
        if String.eqb (header_get "range" (req_header r)) "bytes=0-4" then first
        else second
    end).

Lemma reassembly_in_chunk_order_witness :
  let rf := rf_two (DoOk 206 5 hello true) (DoOk 206 5 world_ true) in
  let s := handleRefracted 8 env_ok rf "/linux.pkg"
             [ATask 1; ATask 0; AHandler; AHandler; AHandler] empty_world in
  handler s = Returned /\ written (trace (world s)) = hello ++ world_.
Proof.
  intros rf s.
  pose (l := handleRefracted_launch 8 env_ok rf "/linux.pkg" empty_world).
  destruct (reassembly_in_chunk_order 8 env_ok rf "/linux.pkg" empty_world
              (snd l) (snd (fst l)) [hello; world_]
              [ATask 1; ATask 0; AHandler; AHandler; AHandler])
    as (_ & H & _).
  - vm_compute. reflexivity.
  - vm_compute. reflexivity.
  - reflexivity.
  - assert (Hret : handler s = Returned) by (vm_compute; reflexivity).
    split; [exact Hret|]. exact (H Hret).
Defined.

Lemma ServeHTTP_refracted_app fuel env rf url sched1 sched2 w :
  HasSuffix url ".db.sig" = false -> HasSuffix url ".db" = false ->
  ServeHTTP fuel env rf url (sched1 ++ sched2) w =
    exec env rf sched2 (ServeHTTP fuel env rf url sched1 w).
Proof.
  intros H1 H2. unfold ServeHTTP, handleRefracted. rewrite H1, H2.
  destruct (handleRefracted_launch fuel env rf url w) as [[h cs] w1].
  apply exec_app.
Qed.

(** Once the handler has left the receive loop and no goroutine is in its
    retry loop any more, nothing moves: a goroutine at its send stays there. *)
Lemma step_settled env rf s :
  (forall i, handler s <> Receiving i) ->
  Forall (fun c => forall try, c_task c <> Fetching try) (chunks s) ->
  forall a, step env rf a s = None.
Proof.
  intros Hh Hts a. unfold step. destruct a as [j|].
  - destruct (chunks s !! j) as [c|] eqn:Hc; [|done].
    rewrite Forall_lookup in Hts. specialize (Hts j c Hc).
    destruct (c_task c) as [try| |]; try done. destruct (Hts try eq_refl).
  - destruct (handler s) as [i| | | |]; try done. destruct (Hh i eq_refl).
Qed.

(** C4: with both chunk fetches failing at all five attempts, every schedule
    that lets the handler return ends with the single call
    [WriteHeader(500)] and no byte written; no schedule makes the handler call
    [WriteHeader(502)]; under the schedule that runs the first goroutine to
    its send and then the handler, the client gets status 500.  With the first
    chunk fetched and the second failing, the first body is written, the
    handler calls [WriteHeader(500)] after it, and the status stays at the 200
    that the first write committed. *)
Theorem chunk_failure_answers_500 (sched : list Actor) :
  let s := ServeHTTP 8 env_ok (rf_two DoErr DoErr) "/linux.pkg" sched empty_world in
  let s0 := ServeHTTP 8 env_ok (rf_two DoErr DoErr) "/linux.pkg"
              (repeat (ATask 0) 5 ++ [AHandler]) empty_world in
  let s1 := ServeHTTP 8 env_ok (rf_two (DoOk 206 5 hello true) DoErr) "/linux.pkg"
              ([ATask 0; AHandler] ++ repeat (ATask 1) 5 ++ [AHandler]) empty_world in
  (handler s = Returned ->
     write_headers (trace (world s)) = [StatusInternalServerError]
     /\ written (trace (world s)) = [])
  /\ ~ In StatusBadGateway (write_headers (trace (world s)))
  /\ (handler s0 = Returned /\ status_line (trace (world s0)) = Some StatusInternalServerError)
  /\ (handler s1 = Returned /\ written (trace (world s1)) = hello
      /\ write_headers (trace (world s1)) = [StatusInternalServerError]
      /\ status_line (trace (world s1)) = Some StatusOK).
Proof.
  intros s s0 s1.
  pose (l := handleRefracted_launch 8 env_ok (rf_two DoErr DoErr) "/linux.pkg" empty_world).
  assert (Hl : l = ((Receiving 0, snd (fst l)), snd l)) by (vm_compute; reflexivity).
  destruct (handleRefracted_outcome env_ok (rf_two DoErr DoErr) 8 "/linux.pkg"
              empty_world (snd (fst l)) (snd l) sched Hl) as (t & Ht & Hout).
  change (handleRefracted 8 env_ok (rf_two DoErr DoErr) "/linux.pkg" sched empty_world)
    with s in Ht, Hout.
  assert (Hv : reassemble env_ok 0 (verdicts (rf_two DoErr DoErr) (snd (fst l)))
               = ([], [StatusInternalServerError])) by (vm_compute; reflexivity).
  rewrite Hv in Hout. cbn [trace empty_world app] in Ht.
  split; [|split; [|split]].
  - intros Hret. rewrite Hret in Hout. rewrite Ht. by injection Hout as <- <-.
  - rewrite Ht. destruct (handler s) as [i| | | |]; try done.
    + destruct Hout as [-> _]. simpl. tauto.
    + injection Hout as _ <-. simpl. unfold StatusBadGateway, StatusInternalServerError.
      intros [H|[]]. discriminate H.
  - vm_compute. done.
  - vm_compute. done.
Qed.

(** C6: the first chunk fails at all five attempts while the fetch of the
    second has succeeded and stands at its send.  The handler returns on the
    failure without receiving from the second channel.  Whatever is scheduled
    afterwards, the second goroutine is still blocked on its unbuffered send,
    holding the response over buffer 0, and that buffer, taken from the pool,
    has not been put back. *)
Theorem abandoned_fetch_blocks_forever (sched : list Actor) :
  let rf := rf_two DoErr (DoOk 206 5 world_ true) in
  let s := ServeHTTP 8 env_ok rf "/linux.pkg"
             ((ATask 1 :: repeat (ATask 0) 5 ++ [AHandler]) ++ sched) empty_world in
  handler s = Returned
  /\ (exists c, chunks s !! 1%nat = Some c
        /\ c_task c = Sending (mkResponseErr None
             (Some (mkResponse 206 5 (ReaderWrapper (mkBuffer 0 world_))))))
  /\ In (EvGet 0) (trace (world s))
  /\ ~ In (EvPut 0) (trace (world s))
  /\ idle (buffers (world s)) = [].
Proof.
  intros rf s. subst s.
  rewrite ServeHTTP_refracted_app by reflexivity.
  set (s1 := ServeHTTP 8 env_ok rf "/linux.pkg"
               (ATask 1 :: repeat (ATask 0) 5 ++ [AHandler]) empty_world).
  assert (Hh : handler s1 = Returned) by (vm_compute; reflexivity).
  assert (Hts : Forall (fun c => forall try, c_task c <> Fetching try) (chunks s1)).
  { vm_compute. repeat constructor; discriminate. }
  rewrite exec_stuck by (apply step_settled; [by rewrite Hh|exact Hts]).
  split; [exact Hh|]. split; [|split; [|split]].
  - eexists. split; vm_compute; reflexivity.
  - vm_compute. tauto.
  - vm_compute. intros H.
    repeat (destruct H as [H|H]; [discriminate H|]). exact H.
  - vm_compute. reflexivity.
Qed.

(** ** The buffer discipline *)

(** The life of one buffer: idle (in the pool, or not yet allocated), taken
    by [Get], emptied by [Reset], filled by the copy from the body, read to
    the end by the consumer, put back. *)
Inductive BState := BIdle | BLoaned | BClean | BFilled | BDrained.

(** How an event moves the buffer [b]; [None] when it breaks the discipline:
    a write into a buffer that was not reset since it was taken, a [Put] of a
    buffer that was not drained since it was filled, a second [Put]. *)
Definition buf_event (b : nat) (st : BState) (e : Event) : option BState :=
  match e with
  | EvGet b' =>
      if Nat.eqb b b' then match st with BIdle => Some BLoaned | _ => None end
      else Some st
  | EvReset b' =>
      if Nat.eqb b b' then match st with BLoaned => Some BClean | _ => None end
      else Some st
  | EvFill b' _ =>
      if Nat.eqb b b' then match st with BClean => Some BFilled | _ => None end
      else Some st
  | EvDrain b' =>
      if Nat.eqb b b' then match st with BFilled => Some BDrained | _ => None end
      else Some st
  | EvPut b' =>
      if Nat.eqb b b' then match st with BDrained => Some BIdle | _ => None end
      else Some st
  | _ => Some st
  end.

Fixpoint discipline_from (b : nat) (st : BState) (t : list Event) : option BState :=
  match t with
  | [] => Some st
  | e :: t =>
      match buf_event b st e with
      | Some st => discipline_from b st t
      | None => None
      end
  end.

Definition discipline (b : nat) (t : list Event) : option BState :=
  discipline_from b BIdle t.

(** How often the buffer was taken from the pool and put back. *)
Definition loans (b : nat) (t : list Event) : nat :=
  length (List.filter (fun e => match e with EvGet b' => Nat.eqb b b' | _ => false end) t).

Definition returns (b : nat) (t : list Event) : nat :=
  length (List.filter (fun e => match e with EvPut b' => Nat.eqb b b' | _ => false end) t).

Definition idle_ids (w : World) : list nat := buf_id <$> idle (buffers w).

(** A buffer between two steps is idle, or it is filled and on loan: then it
    is not in the pool, and it has been allocated. *)
Definition bstate_ok (w : World) (b : nat) : Prop :=
  discipline b (trace w) = Some BIdle
  \/ (discipline b (trace w) = Some BFilled
      /\ ~ In b (idle_ids w) /\ (b < fresh (buffers w))%nat).

Definition pool_ok (w : World) : Prop :=
  NoDup (idle_ids w)
  /\ (forall b, In b (idle_ids w) -> (b < fresh (buffers w))%nat)
  /\ forall b, bstate_ok w b.

Lemma discipline_from_app b t u : forall st,
  discipline_from b st (t ++ u) =
    match discipline_from b st t with
    | Some st' => discipline_from b st' u
    | None => None
    end.
Proof.
  induction t as [|e t IH]; intros st; [done|].
  cbn [app discipline_from]. destruct (buf_event b st e); [apply IH|done].
Qed.

Lemma discipline_app b t u :
  discipline b (t ++ u) =
    match discipline b t with
    | Some st => discipline_from b st u
    | None => None
    end.
Proof. apply discipline_from_app. Qed.

(** A buffer that runs through the discipline is put back once for each time
    it is taken, less the loan that is still open. *)
Lemma discipline_counts b t : forall st st',
  discipline_from b st t = Some st' ->
  (returns b t + (if st' is BIdle then 0 else 1)
   = loans b t + (if st is BIdle then 0 else 1))%nat.
Proof.
  unfold returns, loans.
  induction t as [|e t IH]; intros st st'; cbn [discipline_from].
  - by intros [= ->].
  - destruct (buf_event b st e) as [st1|] eqn:E; [|done].
    intros H. specialize (IH _ _ H). cbn [List.filter].
    destruct e; cbn [buf_event] in E; try (injection E as <-; exact IH);
      destruct (Nat.eqb b b0) eqn:Eb;
      try (injection E as <-; exact IH);
      destruct st; try done; injection E as <-; cbn [length] in *; lia.
Qed.

Lemma empty_world_ok : pool_ok empty_world.
Proof.
  split; [constructor|]. split.
  - intros b [].
  - intros b. by left.
Qed.

(** Events that concern no buffer leave every buffer where it is. *)
Definition no_buffer_event (e : Event) : bool :=
  match e with
  | EvGet _ | EvReset _ | EvFill _ _ | EvDrain _ | EvPut _ => false
  | _ => true
  end.

Lemma discipline_from_skip b t : forall st,
  forallb no_buffer_event t = true -> discipline_from b st t = Some st.
Proof.
  induction t as [|e t IH]; intros st H; [done|].
  cbn [forallb] in H. apply andb_true_iff in H as [He Ht].
  cbn [discipline_from]. destruct e; try done; cbn [buf_event]; by apply IH.
Qed.

Lemma pool_ok_skip w t :
  forallb no_buffer_event t = true ->
  pool_ok w -> pool_ok (mkWorld (buffers w) (trace w ++ t)).
Proof.
  intros Ht (Hnd & Hlt & Hst). split; [done|]. split; [done|].
  intros b. unfold bstate_ok, idle_ids in *. cbn [trace buffers].
  rewrite discipline_app.
  destruct (Hst b) as [H|(H & Hn & Hf)]; rewrite H, (discipline_from_skip _ _ _ Ht); auto.
Qed.

Lemma discipline_skip w t b :
  forallb no_buffer_event t = true ->
  discipline b (trace w ++ t) = discipline b (trace w).
Proof.
  intros Ht. rewrite discipline_app.
  destruct (discipline b (trace w)); [|done]. by apply discipline_from_skip.
Qed.

(** The buffer that a response holds. *)
Definition resp_buffer (resp : Response) : option nat :=
  match RespBody resp with
  | ReaderWrapper buf => Some (buf_id buf)
  | NetBody _ _ => None
  end.

(** The effect of a piece of handler code on the buffers: the pool stays in
    order, a buffer on loan stays filled, and a buffer that comes back inside
    the result was idle before and is filled now. *)
Definition keeps_pool {A} (holds : A -> option nat) (m : M A) : Prop :=
  forall w, pool_ok w ->
    pool_ok (snd (m w))
    /\ (forall b, discipline b (trace w) = Some BFilled ->
         ~ In b (idle_ids w) ->
         discipline b (trace (snd (m w))) = Some BFilled
         /\ ~ In b (idle_ids (snd (m w))))
    /\ (forall b, holds (fst (m w)) = Some b ->
         discipline b (trace w) = Some BIdle
         /\ discipline b (trace (snd (m w))) = Some BFilled
         /\ ~ In b (idle_ids (snd (m w)))).

Definition result_buffer (x : Response + error) : option nat :=
  match x with
  | inl resp => resp_buffer resp
  | inr _ => None
  end.

Lemma copy_events b b0 data r :
  discipline_from b (if Nat.eqb b b0 then BIdle else BFilled)
    [EvDo r; EvGet b0; EvReset b0; EvFill b0 data; EvBodyClose] = Some BFilled.
Proof. cbn. destruct (Nat.eqb b b0); done. Qed.

Lemma copy_events_other b b0 data r st :
  b <> b0 ->
  discipline_from b st [EvDo r; EvGet b0; EvReset b0; EvFill b0 data; EvBodyClose]
  = Some st.
Proof. intros H. apply Nat.eqb_neq in H. cbn. by rewrite H. Qed.

(** The world of an attempt that took a buffer: the pool is in order again,
    with the taken buffer filled. *)
Lemma after_copy_pool r data w :
  pool_ok w ->
  let b := buf_id (fst (after_copy r data w)) in
  let w' := snd (after_copy r data w) in
  pool_ok w'
  /\ discipline b (trace w) = Some BIdle
  /\ discipline b (trace w') = Some BFilled
  /\ ~ In b (idle_ids w')
  /\ (forall b', discipline b' (trace w) = Some BFilled -> ~ In b' (idle_ids w) ->
        discipline b' (trace w') = Some BFilled /\ ~ In b' (idle_ids w')).
Proof.
  intros (Hnd & Hlt & Hst). unfold after_copy, buffers_Get, idle_ids in *.
  destruct (idle (buffers w)) as [|b0 rest] eqn:Hidle; cbn [fst snd buf_id buffers trace idle fresh].
  - (* a new buffer *)
    set (n := fresh (buffers w)).
    assert (Hn : discipline n (trace w) = Some BIdle).
    { destruct (Hst n) as [H|(_ & _ & H)]; [done|]. unfold n in H. lia. }
    assert (Hn' : discipline n (trace w ++ [EvDo r; EvGet n; EvReset n; EvFill n data; EvBodyClose])
                  = Some BFilled).
    { rewrite discipline_app, Hn. pose proof (copy_events n n data r) as H.
      by rewrite Nat.eqb_refl in H. }
    split; [|split; [done|split; [done|split; [by intros []|]]]].
    + split; [constructor|]. split; [intros b []|].
      intros b. unfold bstate_ok. cbn [trace buffers fresh idle fmap list_fmap].
      destruct (decide (b = n)) as [->|Hne].
      * right. split; [done|]. split; [by intros []|lia].
      * rewrite discipline_app.
        destruct (Hst b) as [H|(H & Hnin & Hf)]; rewrite H, copy_events_other by done.
        -- by left.
        -- right. split; [done|]. split; [by intros []|fold n in Hf; lia].
    + intros b' Hb' _. destruct (decide (b' = n)) as [->|Hne]; [congruence|].
      split; [|by intros []]. by rewrite discipline_app, Hb', copy_events_other.
  - (* an idle buffer of the pool *)
    set (n := buf_id b0). cbn [fmap list_fmap] in Hnd, Hlt.
    change (list_fmap _ _ buf_id rest) with (buf_id <$> rest) in *.
    apply NoDup_cons in Hnd as [Hn0 Hnd].
    assert (Hn0' : ~ In n (buf_id <$> rest)) by (by rewrite <- list_elem_of_In).
    assert (Hn : discipline n (trace w) = Some BIdle).
    { destruct (Hst n) as [H|(_ & H & _)]; [done|].
      destruct H. unfold idle_ids. rewrite Hidle. cbn. by left. }
    assert (Hn' : discipline n (trace w ++ [EvDo r; EvGet n; EvReset n; EvFill n data; EvBodyClose])
                  = Some BFilled).
    { rewrite discipline_app, Hn. pose proof (copy_events n n data r) as H.
      by rewrite Nat.eqb_refl in H. }
    split; [|split; [done|split; [done|split; [done|]]]].
    + split; [done|]. split; [intros b Hb; apply Hlt; by right|].
      intros b. unfold bstate_ok. cbn [trace buffers fresh idle].
      destruct (decide (b = n)) as [->|Hne].
      * right. split; [done|]. split; [done|]. apply Hlt. by left.
      * rewrite discipline_app.
        destruct (Hst b) as [H|(H & Hnin & Hf)]; rewrite H, copy_events_other by done.
        -- by left.
        -- right. split; [done|]. split; [|done]. intros Hin. apply Hnin.
           unfold idle_ids. rewrite Hidle. cbn. by right.
    + intros b' Hb' Hnin. destruct (decide (b' = n)) as [->|Hne]; [congruence|].
      split.
      * by rewrite discipline_app, Hb', copy_events_other.
      * intros Hin. apply Hnin. by right.
Qed.

(** An attempt either touches no buffer, or it ends in the world of
    [after_copy] and, when it succeeds, hands out that buffer. *)
Lemma request_cases r d w :
  (exists t, snd (request r d w) = mkWorld (buffers w) (trace w ++ t)
             /\ forallb no_buffer_event t = true
             /\ result_buffer (fst (request r d w)) = None)
  \/ (exists data, snd (request r d w) = snd (after_copy r data w)
             /\ (result_buffer (fst (request r d w)) = None
                 \/ result_buffer (fst (request r d w))
                    = Some (buf_id (fst (after_copy r data w))))).
Proof.
  unfold request, after_copy, buf_Reset, buf_Fill, buffers_Get, bind, emit, ret.
  destruct d as [|status len data read_ok]; cbn [fst snd trace buffers].
  - left. exists [EvDo r]. done.
  - destruct (status =? expectedStatus r); cbn [negb fst snd trace buffers].
    + destruct (is_head (req_method r)); cbn [fst snd trace buffers].
      * left. exists [EvDo r; EvBodyClose]. rewrite <- app_assoc. done.
      * right. exists data.
        destruct (idle (buffers w)) as [|b rest]; cbn [fst snd trace buffers buf_id];
          destruct read_ok; cbn [negb fst snd trace buffers];
          destruct (Z.of_nat (length data) =? len); cbn [negb fst snd trace buffers];
          repeat rewrite <- app_assoc; cbn [app];
          (split; [reflexivity|]); cbn; auto.
    + left. exists [EvDo r; EvBodyClose]. rewrite <- app_assoc. done.
Qed.

Lemma keeps_pool_skip {A} (holds : A -> option nat) (a : A) t :
  forallb no_buffer_event t = true -> holds a = None ->
  keeps_pool holds (fun w => (a, mkWorld (buffers w) (trace w ++ t))).
Proof.
  intros Ht Ha w Hok. cbn [fst snd]. split; [by apply pool_ok_skip|]. split.
  - intros b Hb Hn. cbn [trace]. rewrite discipline_skip by done. done.
  - intros b Hb. congruence.
Qed.

Lemma request_pool r d : keeps_pool result_buffer (request r d).
Proof.
  intros w Hok.
  destruct (request_cases r d w) as [(t & Hw & Ht & Hb)|(data & Hw & Hb)]; rewrite Hw.
  - rewrite Hb.
    pose proof (keeps_pool_skip (fun _ : unit => None) tt t Ht eq_refl w Hok)
      as (G1 & G2 & _).
    cbn [fst snd] in *. split; [done|]. split; [done|]. done.
  - destruct (after_copy_pool r data w Hok) as (H1 & H2 & H3 & H4 & H5).
    split; [done|]. split; [done|].
    intros b Hb'. destruct Hb as [Hb|Hb]; rewrite Hb in Hb'; [done|].
    injection Hb' as <-. done.
Qed.

Definition res_buffer (res : responseErr) : option nat :=
  match response res with
  | Some resp => resp_buffer resp
  | None => None
  end.

Definition iter_buffer (it : Iter) : option nat :=
  match it with
  | Continue _ => None
  | Send res => res_buffer res
  end.

Definition loop_buffer (o : option responseErr) : option nat :=
  match o with
  | Some res => res_buffer res
  | None => None
  end.

Lemma retry_iter_pool rf r try : keeps_pool iter_buffer (retry_iter rf r try).
Proof.
  intros w Hok.
  destruct (request_pool r (Pool rf r (S try)) w Hok) as (H1 & H2 & H3).
  unfold retry_iter, bind.
  destruct (request r (Pool rf r (S try)) w) as [[resp|e] w1]; cbn [fst snd] in *.
  - split; [done|]. split; [done|]. exact H3.
  - destruct (S try <? retries)%nat; cbn [fst snd]; (split; [done|]); (split; [done|]);
      done.
Qed.

Lemma retry_loop_pool rf r : forall fuel try,
  keeps_pool loop_buffer (retry_loop fuel rf r try).
Proof.
  induction fuel as [|fuel IH]; intros try w Hok.
  - cbn [retry_loop ret fst snd]. unfold ret. cbn [fst snd]. done.
  - destruct (retry_iter_pool rf r try w Hok) as (H1 & H2 & H3).
    cbn [retry_loop]. unfold bind.
    destruct (retry_iter rf r try w) as [[try'|res] w1]; cbn [fst snd] in *.
    + destruct (IH try' w1 H1) as (G1 & G2 & G3).
      split; [done|]. split.
      * intros b Hb Hn. destruct (H2 b Hb Hn) as [Hb1 Hn1]. by apply G2.
      * intros b Hb. destruct (G3 b Hb) as (Gi & Gf & Gn).
        split; [|done].
        destruct Hok as (_ & _ & Hst).
        destruct (Hst b) as [Hi|(Hf & Hn & _)]; [done|].
        destruct (H2 b Hf Hn) as [Hb1 _]. congruence.
    + unfold ret. cbn [fst snd]. done.
Qed.

Lemma retryRequest_pool rf r : keeps_pool loop_buffer (retryRequest rf r).
Proof. apply retry_loop_pool. Qed.

Definition body_buffer (body : Body) : option nat :=
  match body with
  | ReaderWrapper buf => Some (buf_id buf)
  | NetBody _ _ => None
  end.

Lemma drain_events b b0 data :
  discipline_from b (if Nat.eqb b b0 then BFilled else BIdle)
    [EvWrite data; EvDrain b0; EvPut b0] = Some BIdle.
Proof. cbn. destruct (Nat.eqb b b0); done. Qed.

Lemma drain_events_other b b0 data st :
  b <> b0 -> discipline_from b st [EvWrite data; EvDrain b0; EvPut b0] = Some st.
Proof. intros H. apply Nat.eqb_neq in H. cbn. by rewrite H. Qed.

(** Reading a body to the end for the client: the buffer behind it, filled
    and on loan, goes back to the pool; the other buffers stay as they are. *)
Lemma io_Copy_rw_pool env i body w :
  pool_ok w ->
  (forall b, body_buffer body = Some b ->
     discipline b (trace w) = Some BFilled /\ ~ In b (idle_ids w)) ->
  let w' := snd (io_Copy_rw env i body w) in
  pool_ok w'
  /\ forall b, discipline b (trace w) = Some BFilled -> ~ In b (idle_ids w) ->
       body_buffer body <> Some b ->
       discipline b (trace w') = Some BFilled /\ ~ In b (idle_ids w').
Proof.
  intros Hok Hbody. unfold io_Copy_rw.
  destruct body as [data ok|buf]; cbn [body_buffer] in *.
  - unfold ret. cbn [snd]. done.
  - destruct (Hbody _ eq_refl) as [Hf Hn]. clear Hbody.
    set (n := buf_id buf) in *.
    destruct (client env i) as [k|]; unfold bind, emit, ret, buffers_Put;
      cbn [fst snd trace buffers idle fresh buf_id].
    + split; [by apply pool_ok_skip|].
      intros b Hb Hnb _. cbn [trace]. by rewrite discipline_skip.
    + rewrite <- !app_assoc. cbn [app].
      destruct Hok as (Hnd & Hlt & Hst).
      assert (Hfresh : (n < fresh (buffers w))%nat).
      { destruct (Hst n) as [H|(_ & _ & H)]; [congruence|done]. }
      split; [split; [|split]|].
      * unfold idle_ids. cbn [buffers idle fmap list_fmap buf_id].
        apply NoDup_cons. split; [by rewrite list_elem_of_In|done].
      * unfold idle_ids. cbn [buffers idle fmap list_fmap buf_id fresh].
        intros b [<-|Hb]; [done|by apply Hlt].
      * intros b. unfold bstate_ok, idle_ids.
        cbn [trace buffers idle fresh fmap list_fmap buf_id].
        rewrite discipline_app.
        destruct (decide (b = n)) as [->|Hne].
        -- left. rewrite Hf. pose proof (drain_events n n (buf_bytes buf)) as H.
           by rewrite Nat.eqb_refl in H.
        -- destruct (Hst b) as [H|(H & Hnin & Hfr)]; rewrite H, drain_events_other by done.
           ++ by left.
           ++ right. split; [done|]. split; [|done].
              intros [Heq|Hin]; [congruence|done].
      * intros b Hb Hnb Hne. unfold idle_ids.
        cbn [trace buffers idle fmap list_fmap buf_id].
        assert (b <> n) by congruence.
        rewrite discipline_app, Hb, drain_events_other by done.
        split; [done|]. intros [Heq|Hin]; [congruence|done].
Qed.

Lemma emit_pool e w :
  no_buffer_event e = true -> pool_ok w ->
  pool_ok (snd (emit e w))
  /\ idle_ids (snd (emit e w)) = idle_ids w
  /\ forall b, discipline b (trace (snd (emit e w))) = discipline b (trace w).
Proof.
  intros He Hok. unfold emit. cbn [snd].
  assert (Ht : forallb no_buffer_event [e] = true) by (cbn; by rewrite He).
  split; [by apply pool_ok_skip|]. split; [done|].
  intros b. cbn [trace]. by apply discipline_skip.
Qed.

Lemma handlePlain_pool env rf url w :
  pool_ok w -> pool_ok (snd (handlePlain env rf url w)).
Proof.
  intros Hok. unfold handlePlain.
  destruct (NewRequest env MethodGet url) as [req|].
  - destruct (retryRequest_pool rf req w Hok) as (H1 & _ & H3).
    unfold bind at 1.
    destruct (retryRequest rf req w) as [[br|] w1]; cbn [fst snd] in *; [|done].
    destruct (err br).
    + unfold bind, ret.
      destruct (emit (EvWriteHeader StatusBadGateway) w1) as [u w2] eqn:E.
      cbn [snd]. change w2 with (snd (u, w2)). rewrite <- E. by apply emit_pool.
    + destruct (response br) as [resp|] eqn:Hr.
      * pose proof (io_Copy_rw_pool env 0 (RespBody resp) w1 H1) as Hc.
        unfold bind, ret.
        destruct (io_Copy_rw env 0 (RespBody resp) w1) as [ok w2]. cbn [snd] in *.
        apply Hc. intros b Hb. destruct (H3 b) as (_ & ? & ?); [|done].
        unfold loop_buffer, res_buffer. rewrite Hr. unfold resp_buffer.
        by destruct (RespBody resp).
      * unfold bind, ret.
        destruct (emit EvPanic w1) as [u w2] eqn:E.
        cbn [snd]. change w2 with (snd (u, w2)). rewrite <- E. by apply emit_pool.
  - unfold bind, ret.
    destruct (emit (EvWriteHeader StatusInternalServerError) w) as [u w2] eqn:E.
    cbn [snd]. change w2 with (snd (u, w2)). rewrite <- E. by apply emit_pool.
Qed.

Lemma consume_pool env i res w :
  pool_ok w ->
  (forall b, res_buffer res = Some b ->
     discipline b (trace w) = Some BFilled /\ ~ In b (idle_ids w)) ->
  let w' := snd (consume env i res w) in
  pool_ok w'
  /\ forall b, discipline b (trace w) = Some BFilled -> ~ In b (idle_ids w) ->
       res_buffer res <> Some b ->
       discipline b (trace w') = Some BFilled /\ ~ In b (idle_ids w').
Proof.
  intros Hok Hres. unfold consume.
  assert (Hemit : forall e w0, no_buffer_event e = true -> pool_ok w0 ->
            (forall b, discipline b (trace w) = Some BFilled -> ~ In b (idle_ids w) ->
               res_buffer res <> Some b ->
               discipline b (trace w0) = Some BFilled /\ ~ In b (idle_ids w0)) ->
            pool_ok (snd ((let* _ := emit e in ret Returned) w0))
            /\ (forall b, discipline b (trace w) = Some BFilled -> ~ In b (idle_ids w) ->
               res_buffer res <> Some b ->
               discipline b (trace (snd ((let* _ := emit e in ret Returned) w0)))
                 = Some BFilled
               /\ ~ In b (idle_ids (snd ((let* _ := emit e in ret Returned) w0))))).
  { intros e w0 He Hok0 Hfr. destruct (emit_pool e w0 He Hok0) as (G1 & G2 & G3).
    unfold bind, ret. destruct (emit e w0) as [u w2]. cbn [snd] in *.
    split; [done|]. intros b Hb Hn Hne. rewrite G2, G3. by apply Hfr. }
  destruct (err res).
  - apply Hemit; done.
  - destruct (response res) as [resp|] eqn:Hr.
    + assert (Hbb : body_buffer (RespBody resp) = res_buffer res).
      { unfold res_buffer, resp_buffer. rewrite Hr. by destruct (RespBody resp). }
      pose proof (io_Copy_rw_pool env i (RespBody resp) w Hok) as Hc.
      rewrite Hbb in Hc. specialize (Hc Hres). cbn zeta in Hc. destruct Hc as [G1 G2].
      unfold bind.
      destruct (io_Copy_rw env i (RespBody resp) w) as [ok w1]. cbn [snd] in *.
      destruct ok.
      * unfold ret. cbn [snd]. done.
      * apply (Hemit (EvWriteHeader StatusInternalServerError) w1); done.
    + assert (Hp : forall w0, (let* _ := emit EvPanic in ret Panicked) w0
                     = (Panicked, snd ((let* _ := emit EvPanic in ret Returned) w0))) by done.
      rewrite Hp. cbn [snd]. apply Hemit; done.
Qed.

(** ** The buffers under every schedule *)

Definition held_buffer (c : Chunk) : option nat :=
  match c_task c with
  | Sending res => res_buffer res
  | _ => None
  end.

(** The buffers of a running [handleRefracted]: the pool is in order; a
    buffer inside a value that waits at a send is filled and on loan; no two
    waiting values share a buffer. *)
Definition sys_ok (s : Sys) : Prop :=
  pool_ok (world s)
  /\ (forall j c b, chunks s !! j = Some c -> held_buffer c = Some b ->
        discipline b (trace (world s)) = Some BFilled
        /\ ~ In b (idle_ids (world s)))
  /\ (forall j1 j2 c1 c2 b,
        chunks s !! j1 = Some c1 -> chunks s !! j2 = Some c2 ->
        held_buffer c1 = Some b -> held_buffer c2 = Some b -> j1 = j2).

Lemma step_sys_ok env rf a s s' :
  sys_ok s -> step env rf a s = Some s' -> sys_ok s'.
Proof.
  intros (Hok & Hheld & Hdist). unfold step. destruct a as [j|].
  - destruct (chunks s !! j) as [c|] eqn:Hc; [|done].
    destruct (c_task c) as [try| |] eqn:Htk; try done.
    destruct (retry_iter_pool rf (c_req c) try (world s) Hok) as (G1 & G2 & G3).
    destruct (retry_iter rf (c_req c) try (world s)) as [it w'].
    intros [= <-]. cbn [fst snd] in *.
    set (tk := match it with Continue t => Fetching t | Send res => Sending res end).
    assert (Hnew : held_buffer (set_task c tk) = iter_buffer it) by (by destruct it).
    assert (Hlook : forall j' c', <[j := set_task c tk]> (chunks s) !! j' = Some c' ->
              (j' = j /\ c' = set_task c tk) \/ (j' <> j /\ chunks s !! j' = Some c')).
    { intros j' c' H. destruct (decide (j = j')) as [<-|Hne].
      - rewrite list_lookup_insert_eq in H by (by eapply lookup_lt_Some).
        injection H as <-. by left.
      - rewrite list_lookup_insert_ne in H by done. right. split; [congruence|done]. }
    split; [done|]. cbn [chunks world]. split.
    + intros j' c' b Hc' Hb.
      destruct (Hlook _ _ Hc') as [[-> ->]|[Hne Hold]].
      * rewrite Hnew in Hb. by destruct (G3 b Hb) as (_ & ? & ?).
      * destruct (Hheld _ _ _ Hold Hb) as [? ?]. by apply G2.
    + intros j1 j2 c1 c2 b Hc1 Hc2 Hb1 Hb2.
      destruct (Hlook _ _ Hc1) as [[-> ->]|[Hne1 Hold1]];
        destruct (Hlook _ _ Hc2) as [[-> ->]|[Hne2 Hold2]]; try done.
      * rewrite Hnew in Hb1. destruct (G3 b Hb1) as (Hi & _).
        destruct (Hheld _ _ _ Hold2 Hb2) as [Hf _]. congruence.
      * rewrite Hnew in Hb2. destruct (G3 b Hb2) as (Hi & _).
        destruct (Hheld _ _ _ Hold1 Hb1) as [Hf _]. congruence.
      * by eapply Hdist.
  - destruct (handler s) as [i| | | |]; try done.
    destruct (chunks s !! i) as [c|] eqn:Hc.
    + destruct (c_task c) as [|res|] eqn:Htk; try done.
      assert (Hc_held : held_buffer c = res_buffer res) by (unfold held_buffer; by rewrite Htk).
      pose proof (consume_pool env i res (world s) Hok) as Hcons.
      destruct (consume env i res (world s)) as [h w'].
      intros [= <-]. cbn [fst snd chunks world] in *.
      destruct Hcons as [G1 G2].
      { intros b Hb. apply (Hheld i c b Hc). by rewrite Hc_held. }
      assert (Hlook : forall j' c', <[i := set_task c Exited]> (chunks s) !! j' = Some c' ->
                held_buffer c' <> None -> j' <> i /\ chunks s !! j' = Some c').
      { intros j' c' H Hh. destruct (decide (i = j')) as [<-|Hne].
        - rewrite list_lookup_insert_eq in H by (by eapply lookup_lt_Some).
          injection H as <-. done.
        - rewrite list_lookup_insert_ne in H by done. split; [congruence|done]. }
      split; [done|]. split.
      * intros j' c' b Hc' Hb.
        destruct (Hlook _ _ Hc' ltac:(congruence)) as [Hne Hold].
        destruct (Hheld _ _ _ Hold Hb) as [? ?]. apply G2; try done.
        intros Heq. apply Hne. eapply (Hdist j' i c' c b); try done.
        by rewrite Hc_held.
      * intros j1 j2 c1 c2 b Hc1 Hc2 Hb1 Hb2.
        destruct (Hlook _ _ Hc1 ltac:(congruence)) as [_ Hold1].
        destruct (Hlook _ _ Hc2 ltac:(congruence)) as [_ Hold2].
        by eapply Hdist.
    + by intros [= <-].
Qed.

Lemma exec_sys_ok env rf sched : forall s, sys_ok s -> sys_ok (exec env rf sched s).
Proof.
  induction sched as [|a sched IH]; intros s Hs; [done|].
  cbn [exec]. apply IH.
  destruct (step env rf a s) as [s'|] eqn:E; [|done]. by eapply step_sys_ok.
Qed.

Definition launched (l : Launch) : list Chunk :=
  match l with
  | LaunchDone cs | LaunchBadRequest cs | LaunchMore cs => cs
  end.

Lemma launch_all_fetching env rf url size : forall fuel start acc,
  Forall (fun c => c_task c = Fetching 0) acc ->
  Forall (fun c => c_task c = Fetching 0) (launched (launch fuel env rf url size start acc)).
Proof.
  induction fuel as [|fuel IH]; intros start acc Hacc; cbn [launch];
    destruct (start <? size); try done.
  destruct (NewRequest env MethodGet url); [|done].
  apply IH. apply Forall_app. split; [done|]. by constructor.
Qed.

Lemma fetching_sys_ok cs h w :
  Forall (fun c => c_task c = Fetching 0) cs -> pool_ok w -> sys_ok (mkSys cs h w).
Proof.
  intros Hcs Hok. rewrite Forall_lookup in Hcs.
  split; [done|]. cbn [chunks world]. split.
  - intros j c b Hc Hb. unfold held_buffer in Hb. by rewrite (Hcs j c Hc) in Hb.
  - intros j1 j2 c1 c2 b Hc1 _ Hb1 _. unfold held_buffer in Hb1.
    by rewrite (Hcs j1 c1 Hc1) in Hb1.
Qed.

Lemma handleRefracted_launch_pool fuel env rf url w :
  pool_ok w ->
  pool_ok (snd (handleRefracted_launch fuel env rf url w))
  /\ Forall (fun c => c_task c = Fetching 0)
       (snd (fst (handleRefracted_launch fuel env rf url w))).
Proof.
  intros Hok.
  remember (handleRefracted_launch fuel env rf url w) as x eqn:Hx.
  unfold handleRefracted_launch in Hx.
  assert (Hemit : forall e h cs w0,
            no_buffer_event e = true -> pool_ok w0 ->
            Forall (fun c => c_task c = Fetching 0) cs ->
            x = (let* _ := emit e in ret (h, cs)) w0 ->
            pool_ok (snd x) /\ Forall (fun c => c_task c = Fetching 0) (snd (fst x))).
  { intros e h cs w0 He Hok0 Hcs ->. destruct (emit_pool e w0 He Hok0) as (G1 & _).
    unfold bind, ret. destruct (emit e w0) as [u w2]. done. }
  destruct (NewRequest env MethodHead url) as [req|].
  - destruct (retryRequest_pool rf (req_add "accept-encoding" "identity" req) w Hok)
      as (H1 & _ & _).
    unfold bind at 1 in Hx.
    destruct (retryRequest rf (req_add "accept-encoding" "identity" req) w) as [[br|] w1];
      cbn [fst snd] in *; [|subst x; by split; [|constructor]].
    destruct (response br) as [resp|].
    + pose proof (launch_all_fetching env rf url (ContentLength resp) fuel 0 []
                    (Forall_nil_2 _)) as Hl.
      destruct (launch fuel env rf url (ContentLength resp) 0 []) as [cs|cs|cs];
        cbn [launched] in Hl.
      * refine (Hemit _ _ _ _ _ H1 Hl Hx). reflexivity.
      * refine (Hemit _ _ _ _ _ H1 Hl Hx). reflexivity.
      * subst x. unfold ret. cbn [fst snd]. done.
    + refine (Hemit _ _ _ _ _ H1 (Forall_nil_2 _) Hx). reflexivity.
  - refine (Hemit _ _ _ _ _ Hok (Forall_nil_2 _) Hx). reflexivity.
Qed.

Lemma ServeHTTP_sys_ok fuel env rf url sched w :
  pool_ok w -> sys_ok (ServeHTTP fuel env rf url sched w).
Proof.
  intros Hok. unfold ServeHTTP.
  destruct (HasSuffix url ".db.sig").
  - destruct (emit_pool (EvWriteHeader StatusNotFound) w eq_refl Hok) as (G1 & _).
    destruct (emit (EvWriteHeader StatusNotFound) w) as [u w'].
    apply fetching_sys_ok; [constructor|done].
  - destruct (HasSuffix url ".db").
    + pose proof (handlePlain_pool env rf url w Hok) as G1.
      destruct (handlePlain env rf url w) as [h w'].
      apply fetching_sys_ok; [constructor|done].
    + unfold handleRefracted.
      destruct (handleRefracted_launch_pool fuel env rf url w Hok) as [G1 G2].
      destruct (handleRefracted_launch fuel env rf url w) as [[h cs] w'].
      apply exec_sys_ok. by apply fetching_sys_ok.
Qed.

(** The claim of C5 as it is written: every loan of a buffer has come back
    to the pool by the time the handler has returned. *)
Definition every_loan_returned (t : list Event) : Prop :=
  forall b, returns b t = loans b t.

(** A mirror that declares five bytes and delivers two, at every attempt. *)
Definition rf_truncating : Refractor :=
  mkRefractor (mkConfig 4 5) (fun _ _ => DoOk StatusOK 5 [Byte.x61; Byte.x62] true).

(** C5, as stated, fails: each of the five truncated attempts of a plain
    fetch takes a buffer, and when the handler has answered 502 and returned
    none of them has been put back. *)
Lemma buffer_dropped_on_truncation :
  let s := ServeHTTP 8 env_ok rf_truncating "/core.db" [] empty_world in
  handler s = Returned
  /\ loans 0 (trace (world s)) = 1%nat
  /\ returns 0 (trace (world s)) = 0%nat
  /\ ~ every_loan_returned (trace (world s)).
Proof.
  intros s.
  assert (Hl : loans 0 (trace (world s)) = 1%nat) by (vm_compute; reflexivity).
  assert (Hr : returns 0 (trace (world s)) = 0%nat) by (vm_compute; reflexivity).
  split; [vm_compute; reflexivity|]. split; [exact Hl|]. split; [exact Hr|].
  intros H. specialize (H 0%nat). rewrite Hl, Hr in H. discriminate H.
Qed.

(** C5, amended: starting from a pool in order, under every schedule every
    buffer runs through the discipline of [buf_event]: it is reset after it
    is taken and before it is written, it is put back only when the consumer
    has read it to the end, and not twice.  Between two steps every buffer is
    idle, or filled and on loan; it has been put back as often as it was
    taken, less the one loan that may still be open; and the pool is in order
    again. *)
Theorem buffer_discipline (fuel : nat) (env : Env) (rf : Refractor) (url : string)
    (sched : list Actor) (w : World) :
  pool_ok w ->
  let s := ServeHTTP fuel env rf url sched w in
  pool_ok (world s)
  /\ forall b,
       (discipline b (trace (world s)) = Some BIdle
        /\ returns b (trace (world s)) = loans b (trace (world s)))
       \/ (discipline b (trace (world s)) = Some BFilled
           /\ S (returns b (trace (world s))) = loans b (trace (world s))).
Proof.
  intros Hok s.
  destruct (ServeHTTP_sys_ok fuel env rf url sched w Hok) as (Hp & _).
  fold s in Hp. split; [done|]. intros b.
  destruct Hp as (_ & _ & Hst).
  destruct (Hst b) as [H|(H & _)]; pose proof (discipline_counts b _ _ _ H) as Hc;
    cbn in Hc; [left|right]; (split; [done|lia]).
Qed.

Lemma buffer_discipline_witness :
  let s := ServeHTTP 8 env_ok (rf_two (DoOk 206 5 hello true) (DoOk 206 5 world_ true))
             "/linux.pkg" [ATask 1; ATask 0; AHandler; AHandler; AHandler] empty_world in
  discipline 0 (trace (world s)) = Some BIdle
  /\ returns 0 (trace (world s)) = loans 0 (trace (world s))
  /\ loans 0 (trace (world s)) = 1%nat.
Proof.
  intros s.
  destruct (buffer_discipline 8 env_ok (rf_two (DoOk 206 5 hello true) (DoOk 206 5 world_ true))
              "/linux.pkg" [ATask 1; ATask 0; AHandler; AHandler; AHandler] empty_world
              empty_world_ok) as [_ H].
  destruct (H 0%nat) as [[H1 H2]|[H1 _]].
  - split; [exact H1|]. split; [exact H2|]. vm_compute. reflexivity.
  - exfalso. vm_compute in H1. discriminate H1.
Defined.

(** * Further properties of the code *)

(** ** Configuration defaults *)

Lemma WithDefaults_id (c : Config) :
  ChunkSize c <> 0 -> ChunkTimeout c <> 0 -> WithDefaults c = c.
Proof.
  intros Hs Ht. unfold WithDefaults.
  apply Z.eqb_neq in Hs. apply Z.eqb_neq in Ht. rewrite Hs, Ht. done.
Qed.

(** X1: [WithDefaults] never leaves a field at zero, keeps every field that
    is not zero (a negative chunk size included), fills a zero chunk size
    with 4 MiB and a zero timeout with five seconds, and applying it twice
    is the same as applying it once. *)
Theorem WithDefaults_fills_zero (c : Config) :
  ChunkSize (WithDefaults c) <> 0
  /\ ChunkTimeout (WithDefaults c) <> 0
  /\ ChunkSize (WithDefaults c) = (if ChunkSize c =? 0 then 4194304 else ChunkSize c)
  /\ ChunkTimeout (WithDefaults c)
     = (if ChunkTimeout c =? 0 then 5000000000 else ChunkTimeout c)
  /\ WithDefaults (WithDefaults c) = WithDefaults c
  /\ rf_config (New c (fun _ _ => DoErr)) = WithDefaults c.
Proof.
  assert (H : ChunkSize (WithDefaults c) <> 0 /\ ChunkTimeout (WithDefaults c) <> 0
              /\ ChunkSize (WithDefaults c)
                 = (if ChunkSize c =? 0 then 4194304 else ChunkSize c)
              /\ ChunkTimeout (WithDefaults c)
                 = (if ChunkTimeout c =? 0 then 5000000000 else ChunkTimeout c)).
  { destruct c as [size timeout]. unfold WithDefaults. cbn [ChunkSize ChunkTimeout].
    destruct (size =? 0) eqn:Es; destruct (timeout =? 0) eqn:Et;
      cbn [ChunkSize ChunkTimeout]; rewrite ?Es, ?Et; cbn [ChunkSize ChunkTimeout];
      try apply Z.eqb_neq in Es; try apply Z.eqb_neq in Et;
      repeat split; try done; try (by vm_compute). }
  destruct H as (H1 & H2 & H3 & H4).
  repeat split; try done. by apply WithDefaults_id.
Qed.

(** ** The retry loop *)

(** Whether an attempt succeeds, read off the answer of the mirror pool: the
    status is the expected one and, unless the request is a probe, the body
    was read without an error and has the declared length. *)
Definition attempt_ok (r : Request) (d : DoResult) : bool :=
  match d with
  | DoErr => false
  | DoOk status len data read_ok =>
      (status =? expectedStatus r)
      && (is_head (req_method r) || (read_ok && (Z.of_nat (length data) =? len)))
  end.

Lemma request_attempt_ok r d w :
  if attempt_ok r d then exists resp, fst (request r d w) = inl resp
  else exists e, fst (request r d w) = inr e.
Proof.
  unfold attempt_ok, request, buf_Reset, buf_Fill, buffers_Get, bind, emit, ret.
  destruct d as [|status len data read_ok]; simpl; [eexists; reflexivity|].
  destruct (status =? expectedStatus r); simpl; [|eexists; reflexivity].
  destruct (is_head (req_method r)); simpl; [eexists; reflexivity|].
  destruct (idle (buffers w)); simpl;
    destruct read_ok; simpl; try (eexists; reflexivity);
    destruct (Z.of_nat (length data) =? len); simpl; eexists; reflexivity.
Qed.

Lemma retry_iter_attempt rf r try w :
  if attempt_ok r (Pool rf r (S try)) then
    exists resp, fst (retry_iter rf r try w) = Send (mkResponseErr None (Some resp))
  else if (S try <? retries)%nat then fst (retry_iter rf r try w) = Continue (S try)
  else exists e, fst (retry_iter rf r try w) = Send (mkResponseErr (Some e) None).
Proof.
  pose proof (request_attempt_ok r (Pool rf r (S try)) w) as H.
  unfold retry_iter, bind.
  destruct (attempt_ok r (Pool rf r (S try)));
    destruct H as [x Hx];
    destruct (request r (Pool rf r (S try)) w) as [res w1]; cbn [fst] in Hx; subst res.
  - by eexists.
  - destruct (S try <? retries)%nat; [done|by eexists].
Qed.

Lemma fetch_returns b t : forallb is_fetch t = true -> returns b t = 0%nat.
Proof.
  unfold returns. induction t as [|e t IH]; [done|]. cbn [forallb List.filter].
  intros H. apply andb_true_iff in H as [He Ht]. destruct e; try done; by apply IH.
Qed.

(** X2: whatever the mirrors answer, [retryRequest] delivers a value after
    at least one and at most five calls of the mirror pool, all for the
    request it was given; the value is either an error or a response, never
    both or neither; an error comes only after the fifth call; and the loop
    writes nothing to the client and puts no buffer back. *)
Theorem retryRequest_bounded (rf : Refractor) (r : Request) (w : World) :
  exists res t k,
    fst (retryRequest rf r w) = Some res
    /\ trace (snd (retryRequest rf r w)) = trace w ++ t
    /\ do_calls t = repeat r k /\ (1 <= k <= 5)%nat
    /\ well_formed res
    /\ (err res <> None -> k = 5%nat)
    /\ written t = [] /\ write_headers t = []
    /\ forall b, returns b t = 0%nat.
Proof.
  destruct (retryRequest_spec rf r w) as (res & t & k & Hr & Hd & Hk & Hf & Hwf & He).
  exists res, t, k. rewrite Hr. cbn [fst snd trace].
  split; [done|]. split; [done|]. split; [done|]. split; [exact Hk|].
  split; [done|]. split; [exact He|].
  split; [by apply fetch_written|]. split; [by apply fetch_write_headers|].
  intros b. by apply fetch_returns.
Qed.

Lemma retry_loop_first_success rf r k : forall fuel try w,
  (try < k)%nat -> (k <= fuel + try)%nat ->
  (forall j, (try < j < k)%nat -> attempt_ok r (Pool rf r j) = false) ->
  attempt_ok r (Pool rf r k) = true ->
  (k <= retries)%nat ->
  exists resp t,
    fst (retry_loop fuel rf r try w) = Some (mkResponseErr None (Some resp))
    /\ trace (snd (retry_loop fuel rf r try w)) = trace w ++ t
    /\ do_calls t = repeat r (k - try).
Proof.
  induction fuel as [|fuel IH]; intros try w Hlt Hfuel Hfail Hok Hk; [lia|].
  destruct (retry_iter_spec rf r try w) as (t & Ht & Hd & _).
  pose proof (retry_iter_attempt rf r try w) as Hit.
  cbn [retry_loop]. unfold bind.
  destruct (retry_iter rf r try w) as [it w1]. cbn [fst snd] in *.
  destruct (decide (S try = k)) as [<-|Hne].
  - rewrite Hok in Hit. destruct Hit as [resp ->].
    exists resp, t. unfold ret. cbn [fst snd].
    replace (S try - try)%nat with 1%nat by lia. done.
  - rewrite (Hfail (S try)) in Hit by lia.
    assert (Hb : (S try <? retries)%nat = true) by (apply Nat.ltb_lt; lia).
    rewrite Hb in Hit. subst it.
    assert (Hfail' : forall j, (S try < j < k)%nat -> attempt_ok r (Pool rf r j) = false)
      by (intros j Hj; apply Hfail; lia).
    destruct (IH (S try) w1 ltac:(lia) ltac:(lia) Hfail' Hok Hk)
      as (resp & t' & H1 & H2 & H3).
    exists resp, (t ++ t'). rewrite H1, H2, Ht, <- app_assoc, do_calls_app, Hd, H3.
    replace (k - try)%nat with (S (k - S try)) by lia. done.
Qed.

(** X3: the retry loop stops at the first attempt that succeeds: when the
    attempts before the [k]-th fail and the [k]-th, one of the five, succeeds,
    [retryRequest] calls the mirror pool exactly [k] times and delivers a
    response. *)
Theorem retryRequest_first_success (rf : Refractor) (r : Request) (w : World) (k : nat) :
  (1 <= k <= 5)%nat ->
  (forall j, (1 <= j < k)%nat -> attempt_ok r (Pool rf r j) = false) ->
  attempt_ok r (Pool rf r k) = true ->
  exists resp t,
    fst (retryRequest rf r w) = Some (mkResponseErr None (Some resp))
    /\ trace (snd (retryRequest rf r w)) = trace w ++ t
    /\ do_calls t = repeat r k.
Proof.
  intros Hk Hfail Hok. unfold retryRequest.
  assert (Hfail' : forall j, (0 < j < k)%nat -> attempt_ok r (Pool rf r j) = false)
    by (intros j Hj; apply Hfail; lia).
  destruct (retry_loop_first_success rf r k retries 0 w
              ltac:(lia) ltac:(unfold retries; lia) Hfail' Hok ltac:(unfold retries; lia))
    as (resp & t & H1 & H2 & H3).
  exists resp, t. rewrite Nat.sub_0_r in H3. done.
Qed.

(** A mirror pool whose first two answers to any request are transport
    errors and whose later answers carry the five bytes asked for. *)
Definition rf_flaky : Refractor :=
  mkRefractor (mkConfig 4 5) (fun _ n =>
    if (n <? 3)%nat then DoErr else DoOk StatusPartialContent 5 hello true).

Lemma retryRequest_first_success_witness :
  let r := req_add "range" (range_value 0 4) (mkRequest MethodGet "/linux.pkg" []) in
  exists resp t,
    fst (retryRequest rf_flaky r empty_world) = Some (mkResponseErr None (Some resp))
    /\ trace (snd (retryRequest rf_flaky r empty_world)) = trace empty_world ++ t
    /\ do_calls t = repeat r 3.
Proof.
  intros r. apply (retryRequest_first_success rf_flaky r empty_world 3).
  - lia.
  - intros j Hj. assert (Hj' : j = 1%nat \/ j = 2%nat) by lia.
    destruct Hj' as [-> | ->]; reflexivity.
  - vm_compute. reflexivity.
Defined.

Lemma retry_loop_all_fail rf r : forall fuel try w,
  (try < retries)%nat -> (retries <= fuel + try)%nat ->
  (forall j, (try < j <= retries)%nat -> attempt_ok r (Pool rf r j) = false) ->
  exists e t,
    fst (retry_loop fuel rf r try w) = Some (mkResponseErr (Some e) None)
    /\ trace (snd (retry_loop fuel rf r try w)) = trace w ++ t
    /\ do_calls t = repeat r (retries - try).
Proof.
  induction fuel as [|fuel IH]; intros try w Hlt Hfuel Hfail; [lia|].
  destruct (retry_iter_spec rf r try w) as (t & Ht & Hd & _).
  pose proof (retry_iter_attempt rf r try w) as Hit.
  rewrite (Hfail (S try)) in Hit by lia.
  cbn [retry_loop]. unfold bind.
  destruct (retry_iter rf r try w) as [it w1]. cbn [fst snd] in *.
  destruct (S try <? retries)%nat eqn:Hb.
  - apply Nat.ltb_lt in Hb. subst it.
    assert (Hfail' : forall j, (S try < j <= retries)%nat ->
                       attempt_ok r (Pool rf r j) = false)
      by (intros j Hj; apply Hfail; lia).
    destruct (IH (S try) w1 Hb ltac:(lia) Hfail') as (e & t' & H1 & H2 & H3).
    exists e, (t ++ t'). rewrite H1, H2, Ht, <- app_assoc, do_calls_app, Hd, H3.
    replace (retries - try)%nat with (S (retries - S try)) by lia. done.
  - apply Nat.ltb_ge in Hb. destruct Hit as [e ->].
    exists e, t. unfold ret. cbn [fst snd].
    replace (retries - try)%nat with 1%nat by lia. done.
Qed.

(** X4: when all five attempts fail, [retryRequest] calls the mirror pool
    exactly five times and delivers an error and no response. *)
Theorem retryRequest_gives_up (rf : Refractor) (r : Request) (w : World) :
  (forall j, (1 <= j <= 5)%nat -> attempt_ok r (Pool rf r j) = false) ->
  exists e t,
    fst (retryRequest rf r w) = Some (mkResponseErr (Some e) None)
    /\ trace (snd (retryRequest rf r w)) = trace w ++ t
    /\ do_calls t = repeat r 5.
Proof.
  intros Hfail. unfold retryRequest.
  assert (Hfail' : forall j, (0 < j <= retries)%nat -> attempt_ok r (Pool rf r j) = false)
    by (intros j Hj; apply Hfail; unfold retries in Hj; lia).
  destruct (retry_loop_all_fail rf r retries 0 w
              ltac:(unfold retries; lia) ltac:(lia) Hfail') as (e & t & H1 & H2 & H3).
  exists e, t. done.
Qed.

Lemma retryRequest_gives_up_witness :
  exists e t,
    fst (retryRequest rf_truncating (mkRequest MethodGet "/core.db" []) empty_world)
      = Some (mkResponseErr (Some e) None)
    /\ trace (snd (retryRequest rf_truncating (mkRequest MethodGet "/core.db" []) empty_world))
       = trace empty_world ++ t
    /\ do_calls t = repeat (mkRequest MethodGet "/core.db" []) 5.
Proof.
  apply (retryRequest_gives_up rf_truncating (mkRequest MethodGet "/core.db" []) empty_world).
  intros j Hj. reflexivity.
Defined.

(** ** More on one attempt *)

(** X5: an attempt of a probe (HEAD) never takes a buffer and is judged by
    its status alone: with the expected status the response comes back as the
    transport gave it, whatever its declared length and whether or not its
    body could be read; with another status the attempt fails; the only
    events are the call of the mirror pool and the closing of the body. *)
Theorem request_probe (r : Request) (d : DoResult) (w : World) :
  req_method r = MethodHead ->
  exists t,
    snd (request r d w) = mkWorld (buffers w) (trace w ++ t)
    /\ forallb no_buffer_event t = true
    /\ do_calls t = [r]
    /\ fst (request r d w) =
         match d with
         | DoErr => inr ErrTransport
         | DoOk status len data read_ok =>
             if status =? expectedStatus r
             then inl (mkResponse status len (NetBody data read_ok))
             else inr (ErrStatus status (expectedStatus r))
         end.
Proof.
  intros Hm. unfold request, bind, emit, ret.
  destruct d as [|status len data read_ok]; simpl.
  - exists [EvDo r]. done.
  - destruct (status =? expectedStatus r); simpl.
    + rewrite Hm. simpl. exists [EvDo r; EvBodyClose]. rewrite <- app_assoc. done.
    + exists [EvDo r; EvBodyClose]. rewrite <- app_assoc. done.
Qed.

Lemma request_probe_witness :
  request (headReq "/linux.pkg") (DoOk 200 10 [Byte.x61] false) empty_world
  = (inl (mkResponse 200 10 (NetBody [Byte.x61] false)),
     mkWorld (mkPool [] 0) [EvDo (headReq "/linux.pkg"); EvBodyClose]).
Proof.
  destruct (request_probe (headReq "/linux.pkg") (DoOk 200 10 [Byte.x61] false)
              empty_world eq_refl) as (t & Hw & _ & _ & Hr).
  vm_compute in Hr. vm_compute. reflexivity.
Defined.

(** X6: when reading the body fails (a read error, or the body closed at the
    deadline), the attempt of a GET with the expected status fails with the
    copy error, also when the bytes read so far match the declared length;
    the buffer it took is not put back. *)
Theorem request_copy_error (r : Request) status len data (w : World) :
  req_method r = MethodGet -> status = expectedStatus r ->
  request r (DoOk status len data false) w = (inr ErrCopy, snd (after_copy r data w))
  /\ exists t, trace (snd (after_copy r data w)) = trace w ++ t
               /\ loans (buf_id (fst (after_copy r data w))) t = 1%nat
               /\ forall b, returns b t = 0%nat.
Proof.
  intros Hm Hst. split.
  - pose proof (request_copy_world r status len data false w Hm Hst) as Hw.
    rewrite <- Hw. subst status.
    unfold request, buf_Reset, buf_Fill, buffers_Get, bind, emit, ret.
    simpl. rewrite Z.eqb_refl, Hm. simpl.
    destruct (idle (buffers w)) as [|b rest]; reflexivity.
  - unfold after_copy, buffers_Get.
    destruct (idle (buffers w)) as [|b rest]; cbn [fst snd trace buf_id];
      eexists; (split; [reflexivity|]); unfold loans, returns; cbn [List.filter];
      rewrite Nat.eqb_refl; done.
Qed.

Lemma request_copy_error_witness :
  request (req_add "range" (range_value 0 1) (mkRequest MethodGet "/linux.pkg" []))
    (DoOk 206 2 [Byte.x61; Byte.x62] false) empty_world
  = (inr ErrCopy,
     mkWorld (mkPool [] 1)
       [EvDo (req_add "range" (range_value 0 1) (mkRequest MethodGet "/linux.pkg" []));
        EvGet 0; EvReset 0; EvFill 0 [Byte.x61; Byte.x62]; EvBodyClose]).
Proof.
  destruct (request_copy_error
              (req_add "range" (range_value 0 1) (mkRequest MethodGet "/linux.pkg" []))
              206 2 [Byte.x61; Byte.x62] empty_world eq_refl eq_refl) as [H _].
  exact H.
Defined.

(** ** The single-stream fetcher, when the fetch succeeds *)

Lemma retryRequest_verdict rf r w :
  exists res,
    fst (retryRequest rf r w) = Some res /\ well_formed res
    /\ verdict res = fetched rf r.
Proof.
  destruct (retryRequest_spec rf r w) as (res & t & k & Hr & _ & _ & _ & Hwf & _).
  exists res. rewrite Hr. split; [done|]. split; [done|].
  pose proof (retry_loop_indep rf r retries 0 w empty_world) as Hi.
  unfold retryRequest in Hr. rewrite Hr in Hi. cbn [fst fmap option_fmap option_map] in Hi.
  unfold fetched, run_verdict. change (retries - 0)%nat with retries.
  destruct (fst (retry_loop retries rf r 0 empty_world)); cbn in Hi; [|done].
  by injection Hi.
Qed.

(** X7: when the fetch of a [.db] style request delivers a body,
    [handlePlain] writes that body to the client as it is, or the part of it
    that the client takes before its connection breaks, calls no
    [WriteHeader] in either case (the status is the implicit 200) and
    returns. *)
Theorem handlePlain_forwards (env : Env) (rf : Refractor) (url : string) (w : World)
    (body : list Byte.byte) :
  url_ok env url = true ->
  fetched rf (mkRequest MethodGet url []) = Some body ->
  fst (handlePlain env rf url w) = Returned
  /\ exists t,
       trace (snd (handlePlain env rf url w)) = trace w ++ t
       /\ written t = match client env 0 with
                      | None => body
                      | Some k => take k body
                      end
       /\ write_headers t = []
       /\ status_line t = Some StatusOK.
Proof.
  intros Hurl Hf.
  destruct (retryRequest_verdict rf (mkRequest MethodGet url []) w) as (res & Hr & Hwf & Hv).
  destruct (retryRequest_spec rf (mkRequest MethodGet url []) w)
    as (res' & t & k & Hr' & _ & _ & Hfe & _ & _).
  rewrite Hr' in Hr. cbn [fst] in Hr. injection Hr as ->.
  rewrite Hf in Hv.
  destruct Hwf as [[e ->]|[resp ->]]; [done|].
  unfold verdict in Hv. cbn [err response] in Hv.
  destruct (RespBody resp) as [data ok|buf] eqn:Hbody; [done|]. cbn [body_bytes] in Hv.
  injection Hv as Hv.
  set (w1 := snd (retryRequest rf (mkRequest MethodGet url []) w)) in *.
  assert (Hx : handlePlain env rf url w =
               (Returned, snd (io_Copy_rw env 0 (ReaderWrapper buf)
                                 (mkWorld (buffers w1) (trace w ++ t))))).
  { unfold handlePlain, NewRequest. rewrite Hurl. unfold bind. rewrite Hr'.
    cbn [err response]. rewrite Hbody.
    by destruct (io_Copy_rw env 0 (ReaderWrapper buf) _). }
  rewrite Hx. cbn [fst snd]. split; [done|].
  unfold io_Copy_rw, bind, emit, ret, buffers_Put. rewrite Hv.
  destruct (client env 0) as [n|]; cbn [fst snd trace buffers].
  - exists (t ++ [EvWrite (take n body)]).
    assert (Hw1 : written [EvWrite (take n body)] = take n body)
      by (unfold written; cbn; apply app_nil_r).
    rewrite written_app, write_headers_app, (fetch_written _ Hfe),
      (fetch_write_headers _ Hfe), (fetch_status_line _ _ Hfe), app_assoc, Hw1.
    repeat split; try done. cbn. by destruct (take n body).
  - exists (t ++ [EvWrite body; EvDrain (buf_id buf); EvPut (buf_id buf)]).
    assert (Hw1 : written [EvWrite body; EvDrain (buf_id buf); EvPut (buf_id buf)] = body)
      by (unfold written; cbn; apply app_nil_r).
    rewrite written_app, write_headers_app, (fetch_written _ Hfe),
      (fetch_write_headers _ Hfe), (fetch_status_line _ _ Hfe), <- !app_assoc, Hw1.
    repeat split; try done. cbn. by destruct body.
Qed.

Lemma handlePlain_forwards_witness :
  let rf := rf_serving (mkConfig 4 5) 5 200 hello in
  fst (handlePlain env_ok rf "/core.db" empty_world) = Returned
  /\ written (trace (snd (handlePlain env_ok rf "/core.db" empty_world))) = hello.
Proof.
  intros rf.
  destruct (handlePlain_forwards env_ok rf "/core.db" empty_world hello)
    as (Hh & t & Ht & Hw & _).
  - reflexivity.
  - vm_compute. reflexivity.
  - split; [exact Hh|]. rewrite Ht. exact Hw.
Defined.

(** X8: when [http.NewRequest] rejects the URL, a request that is not for a
    signature is answered with the single call [WriteHeader(500)], by
    [handlePlain] and by [handleRefracted] alike: the mirror pool is not
    called, no goroutine is started and no buffer is taken. *)
Theorem bad_url_answers_500 (fuel : nat) (env : Env) (rf : Refractor) (url : string)
    (sched : list Actor) (w : World) :
  HasSuffix url ".db.sig" = false ->
  url_ok env url = false ->
  ServeHTTP fuel env rf url sched w =
    mkSys [] Returned
      (mkWorld (buffers w) (trace w ++ [EvWriteHeader StatusInternalServerError])).
Proof.
  intros Hsig Hurl. unfold ServeHTTP. rewrite Hsig.
  destruct (HasSuffix url ".db").
  - unfold handlePlain, NewRequest. rewrite Hurl. reflexivity.
  - unfold handleRefracted, handleRefracted_launch, NewRequest. rewrite Hurl.
    unfold bind, emit, ret. apply exec_stuck. intros a. by apply step_no_chunks.
Qed.

Lemma bad_url_answers_500_witness :
  ServeHTTP 8 (mkEnv (fun _ => false) (fun _ => None)) rf_down "/%zz" [AHandler] empty_world
  = mkSys [] Returned (mkWorld (mkPool [] 0) [EvWriteHeader 500]).
Proof.
  apply (bad_url_answers_500 8 (mkEnv (fun _ => false) (fun _ => None)) rf_down "/%zz"
           [AHandler] empty_world); reflexivity.
Defined.

(** ** More on the launch loop *)

(** X9: for a positive chunk size and a resource that is not empty and
    leaves room for one chunk below the largest [int64], the launch loop ends
    (within [size] turns) and the ranges it has built start at 0, each end
    [ChunkSize] bytes after their start or at [size], whichever is smaller,
    and each start one past the end of the one before; there are
    ceil(size / (ChunkSize + 1)) of them, and the last one ends at [size], or
    at [size - 1] when [ChunkSize + 1] divides [size]. *)
Theorem launch_partitions_resource (env : Env) (rf : Refractor) (url : string)
    (size : Z) (fuel : nat) :
  url_ok env url = true ->
  0 < ChunkSize (rf_config rf) -> 0 < size ->
  size + ChunkSize (rf_config rf) <= Int64.max_int ->
  (Z.to_nat size <= fuel)%nat ->
  exists cs,
    launch fuel env rf url size 0 [] = LaunchDone cs
    /\ chain (ChunkSize (rf_config rf)) size 0 (ranges cs)
    /\ Z.of_nat (length cs) =
         (size + ChunkSize (rf_config rf)) / (ChunkSize (rf_config rf) + 1)
    /\ exists s e, last (ranges cs) = Some (s, e)
         /\ (e = size \/ e = size - 1)
         /\ (e = size - 1 -> size mod (ChunkSize (rf_config rf) + 1) = 0).
Proof. intros Hurl HC Hs Hmax Hfuel. by apply launch_partition. Qed.

Lemma launch_partitions_resource_witness :
  exists cs,
    launch 10 env_ok rf_down "/linux.pkg" 10 0 [] = LaunchDone cs
    /\ ranges cs = [(0, 4); (5, 9)]
    /\ Z.of_nat (length cs) = (10 + 4) / (4 + 1).
Proof.
  destruct (launch_partitions_resource env_ok rf_down "/linux.pkg" 10 10)
    as (cs & Hl & _ & Hn & _).
  - reflexivity.
  - reflexivity.
  - lia.
  - vm_compute. discriminate.
  - vm_compute. lia.
  - exists cs. split; [exact Hl|]. split; [|exact Hn].
    vm_compute in Hl. injection Hl as <-. reflexivity.
Defined.

(** The request that the launch loop builds for the range from [s] to [e]. *)
Definition chunk_request (url : string) (s e : Z) : Request :=
  req_add "accept-encoding" "identity"
    (req_add "range" (range_value s e) (mkRequest MethodGet url [])).

(** X10: a chunk size of -1, which [WithDefaults] lets through, keeps the
    launch loop of a resource that is not empty at offset 0 for ever: after
    any number of turns the loop is still running and has started that many
    fetches, each for the range [bytes=0--1]. *)
Theorem launch_negative_chunk_never_ends (env : Env) (rf : Refractor) (url : string)
    (size : Z) (fuel : nat) :
  url_ok env url = true ->
  ChunkSize (rf_config rf) = -1 ->
  0 < size ->
  launch fuel env rf url size 0 [] =
    LaunchMore (repeat (mkChunk 0 (-1) (chunk_request url 0 (-1)) (Fetching 0)) fuel).
Proof.
  intros Hurl HC Hsize.
  assert (H : forall n acc,
    launch n env rf url size 0 acc =
      LaunchMore (acc ++ repeat (mkChunk 0 (-1) (chunk_request url 0 (-1)) (Fetching 0)) n)).
  { induction n as [|n IH]; intros acc; cbn [launch];
      (destruct (0 <? size) eqn:E; [|apply Z.ltb_ge in E; lia]).
    - by rewrite app_nil_r.
    - rewrite HC. change (Int64.add 0 (-1)) with (-1).
      assert (G : (-1 >? size) = false) by (rewrite Z.gtb_ltb; apply Z.ltb_ge; lia).
      rewrite G. change (Int64.add (-1) 1) with 0.
      unfold NewRequest. rewrite Hurl. rewrite IH, <- app_assoc. reflexivity. }
  apply (H fuel []).
Qed.

Lemma launch_negative_chunk_never_ends_witness :
  launch 3 env_ok (New (mkConfig (-1) 0) (fun _ _ => DoErr)) "/linux.pkg" 10 0 [] =
    LaunchMore (repeat (mkChunk 0 (-1) (chunk_request "/linux.pkg" 0 (-1)) (Fetching 0)) 3).
Proof.
  apply (launch_negative_chunk_never_ends env_ok
           (New (mkConfig (-1) 0) (fun _ _ => DoErr)) "/linux.pkg" 10 3).
  - reflexivity.
  - reflexivity.
  - lia.
Defined.

Lemma launch_shape env rf url size : forall fuel start acc,
  Forall (fun c => c_req c = chunk_request url (c_start c) (c_end c)
                   /\ c_task c = Fetching 0) acc ->
  Forall (fun c => c_req c = chunk_request url (c_start c) (c_end c)
                   /\ c_task c = Fetching 0)
    (launched (launch fuel env rf url size start acc)).
Proof.
  induction fuel as [|fuel IH]; intros start acc Hacc; cbn [launch];
    destruct (start <? size); try done.
  unfold NewRequest. destruct (url_ok env url); [|done].
  apply IH. apply Forall_app. split; [done|]. by constructor.
Qed.

(** X11: every fetch that the launch loop starts, whether the loop ends or
    not, is a GET for the URL of the incoming request with exactly two
    headers, [range] with the bytes of its own chunk and [accept-encoding:
    identity]; its goroutine starts with the counter at zero, and each of its
    attempts expects status 206. *)
Theorem launched_requests (fuel : nat) (env : Env) (rf : Refractor) (url : string)
    (size : Z) (c : Chunk) :
  In c (launched (launch fuel env rf url size 0 [])) ->
  c_req c = mkRequest MethodGet url
              [("range"%string, range_value (c_start c) (c_end c));
               ("accept-encoding"%string, "identity"%string)]
  /\ c_task c = Fetching 0
  /\ expectedStatus (c_req c) = StatusPartialContent.
Proof.
  intros Hin.
  pose proof (launch_shape env rf url size fuel 0 [] (Forall_nil_2 _)) as H.
  rewrite Forall_forall in H. apply list_elem_of_In in Hin.
  destruct (H c Hin) as [Hreq Htask].
  split; [by rewrite Hreq|]. split; [done|].
  rewrite Hreq. apply expectedStatus_ranged.
Qed.

Lemma launched_requests_witness :
  let c := mkChunk 5 9 (chunk_request "/linux.pkg" 5 9) (Fetching 0) in
  c_req c = mkRequest MethodGet "/linux.pkg"
              [("range"%string, "bytes=5-9"%string);
               ("accept-encoding"%string, "identity"%string)]
  /\ expectedStatus (c_req c) = 206.
Proof.
  intros c.
  destruct (launched_requests 10 env_ok rf_down "/linux.pkg" 10 c) as (H1 & _ & H3).
  - vm_compute. right. left. reflexivity.
  - split; [exact H1|exact H3].
Defined.

(** ** What the client sees of the chunked fetcher *)

(** Events that are no call of [WriteHeader] and no unwinding. *)
Definition rw_quiet (e : Event) : bool :=
  match e with
  | EvWriteHeader _ | EvPanic => false
  | _ => true
  end.

(** Events that are no call on the response writer at all. *)
Definition rw_silent (e : Event) : bool :=
  match e with
  | EvWriteHeader _ | EvPanic | EvWrite _ => false
  | _ => true
  end.

(** The status that the calls on the response writer amount to: the 200
    that the first byte written commits, else the first [WriteHeader], else
    the 200 of a handler that returns without either. *)
Definition status_formula (t : list Event) : option Z :=
  match written t with
  | [] =>
      match write_headers t with
      | [] => Some StatusOK
      | code :: _ => Some code
      end
  | _ :: _ => Some StatusOK
  end.

Lemma quiet_write_headers t : forallb rw_quiet t = true -> write_headers t = [].
Proof.
  induction t as [|e t IH]; [done|]. cbn [forallb]. intros H.
  apply andb_true_iff in H as [He Ht]. destruct e; try done; by apply IH.
Qed.

Lemma fetch_quiet t : forallb is_fetch t = true -> forallb rw_quiet t = true.
Proof.
  induction t as [|e t IH]; [done|]. cbn [forallb]. intros H.
  apply andb_true_iff in H as [He Ht]. rewrite (IH Ht). by destruct e.
Qed.

Lemma fetch_silent t : forallb is_fetch t = true -> forallb rw_silent t = true.
Proof.
  induction t as [|e t IH]; [done|]. cbn [forallb]. intros H.
  apply andb_true_iff in H as [He Ht]. rewrite (IH Ht). by destruct e.
Qed.

Lemma status_line_silent t : forallb rw_silent t = true -> status_line t = Some StatusOK.
Proof.
  induction t as [|e t IH]; [done|]. cbn [forallb]. intros H.
  apply andb_true_iff in H as [He Ht]. destruct e; try done; by apply IH.
Qed.

Lemma status_line_app_silent t u :
  forallb rw_silent u = true -> status_line (t ++ u) = status_line t.
Proof.
  intros Hu. induction t as [|e t IH]; cbn [app].
  - by rewrite status_line_silent.
  - destruct e; try done. destruct data; [exact IH|done].
Qed.

Lemma written_silent t : forallb rw_silent t = true -> written t = [].
Proof.
  induction t as [|e t IH]; [done|]. cbn [forallb]. intros H.
  apply andb_true_iff in H as [He Ht]. destruct e; try done; by apply IH.
Qed.

Lemma silent_write_headers t : forallb rw_silent t = true -> write_headers t = [].
Proof.
  induction t as [|e t IH]; [done|]. cbn [forallb]. intros H.
  apply andb_true_iff in H as [He Ht]. destruct e; try done; by apply IH.
Qed.

(** While no [WriteHeader] was called, the status is open until the first
    byte is written. *)
Lemma status_line_app_quiet t u :
  forallb rw_quiet t = true ->
  status_line (t ++ u) = match written t with
                         | [] => status_line u
                         | _ :: _ => Some StatusOK
                         end.
Proof.
  induction t as [|e t IH]; [done|]. cbn [forallb app]. intros H.
  apply andb_true_iff in H as [He Ht]. specialize (IH Ht).
  destruct e; try done.
  destruct data as [|x data]; [exact IH|]. reflexivity.
Qed.

(** What the handler has shown to the client, over the events [t] of this
    request: in the receive loop no [WriteHeader] was called; once returned,
    at most one was, with 500, and the status is the one of
    [status_formula]. *)
Definition shown (h : HState) (t : list Event) : Prop :=
  match h with
  | Receiving _ => forallb rw_quiet t = true
  | Returned =>
      status_line t = status_formula t
      /\ (write_headers t = [] \/ write_headers t = [StatusInternalServerError])
  | _ => write_headers t = []
  end.

Lemma consume_shown env i res w t :
  forallb rw_quiet t = true ->
  exists tc,
    trace (snd (consume env i res w)) = trace w ++ tc
    /\ response_headers tc = [] /\ do_calls tc = []
    /\ shown (fst (consume env i res w)) (t ++ tc).
Proof.
  intros Hq. pose proof (quiet_write_headers _ Hq) as Hwh.
  assert (Hfail : forall d,
    shown Returned (t ++ [EvWrite d; EvWriteHeader StatusInternalServerError])).
  { intros d. unfold shown, status_formula.
    rewrite status_line_app_quiet, written_app, write_headers_app, Hwh by done.
    split; [|by right].
    assert (Hd : written [EvWrite d; EvWriteHeader StatusInternalServerError] = d)
      by (unfold written; cbn; apply app_nil_r).
    rewrite Hd. destruct (written t); [|done]. cbn [app]. by destruct d. }
  assert (Hfail0 : shown Returned (t ++ [EvWriteHeader StatusInternalServerError])).
  { unfold shown, status_formula.
    rewrite status_line_app_quiet, written_app, write_headers_app, Hwh by done.
    split; [|by right]. cbn. rewrite app_nil_r. by destruct (written t). }
  unfold consume. destruct (err res).
  - exists [EvWriteHeader StatusInternalServerError]. done.
  - destruct (response res) as [resp|].
    + unfold io_Copy_rw, bind, emit, ret, buffers_Put.
      destruct (RespBody resp) as [data ok|buf]; cbn [fst snd trace buffers].
      * exists [EvWriteHeader StatusInternalServerError]. done.
      * destruct (client env i) as [k|]; cbn [fst snd trace buffers].
        -- exists [EvWrite (take k (buf_bytes buf)); EvWriteHeader StatusInternalServerError].
           rewrite <- app_assoc. done.
        -- exists [EvWrite (buf_bytes buf); EvDrain (buf_id buf); EvPut (buf_id buf)].
           rewrite <- !app_assoc. repeat split; try done.
           cbn [shown]. rewrite forallb_app, Hq. done.
    + exists [EvPanic]. unfold bind, emit, ret. cbn [fst snd trace shown].
      repeat split; try done. by rewrite write_headers_app, Hwh.
Qed.

Lemma step_shown env rf a s s' t0 t :
  trace (world s) = t0 ++ t -> shown (handler s) t ->
  step env rf a s = Some s' ->
  exists t',
    trace (world s') = t0 ++ t ++ t' /\ response_headers t' = []
    /\ (length (do_calls t') <= 1)%nat
    /\ shown (handler s') (t ++ t').
Proof.
  intros Htr Hsh. unfold step. destruct a as [j|].
  - destruct (chunks s !! j) as [c|]; [|done].
    destruct (c_task c) as [try| |]; try done.
    destruct (retry_iter_spec rf (c_req c) try (world s)) as (tf & Htf & Hd & Hf & _).
    destruct (retry_iter rf (c_req c) try (world s)) as [it w'].
    intros [= <-]. cbn [fst snd world handler] in *.
    exists tf. rewrite Htf, Htr, <- app_assoc.
    split; [done|]. split; [by apply fetch_response_headers|].
    split; [by rewrite Hd|].
    destruct (handler s); cbn [shown] in *.
    + rewrite forallb_app, Hsh. by apply fetch_quiet.
    + unfold status_formula in *.
      rewrite status_line_app_silent, written_app, write_headers_app,
        (fetch_written _ Hf), (fetch_write_headers _ Hf), !app_nil_r
        by (by apply fetch_silent). done.
    + by rewrite write_headers_app, (fetch_write_headers _ Hf), app_nil_r.
    + by rewrite write_headers_app, (fetch_write_headers _ Hf), app_nil_r.
    + by rewrite write_headers_app, (fetch_write_headers _ Hf), app_nil_r.
  - destruct (handler s) as [i| | | |]; try done. cbn [shown] in Hsh.
    destruct (chunks s !! i) as [c|].
    + destruct (c_task c) as [|res|]; try done.
      destruct (consume_shown env i res (world s) t Hsh) as (tc & Htc & Hh & Hd & Hs).
      destruct (consume env i res (world s)) as [h w'].
      intros [= <-]. cbn [fst snd world handler] in *.
      exists tc. rewrite Htc, Htr, <- app_assoc. rewrite Hd.
      split; [done|]. split; [done|]. split; [cbn; lia|done].
    + intros [= <-]. cbn [world handler]. exists [].
      rewrite !app_nil_r. split; [done|]. split; [done|]. split; [cbn; lia|].
      cbn [shown].
      pose proof (quiet_write_headers _ Hsh) as Hwh.
      unfold status_formula. rewrite Hwh.
      split; [|by left].
      pose proof (status_line_app_quiet t [] Hsh) as H. rewrite app_nil_r in H.
      rewrite H. by destruct (written t).
Qed.

Lemma exec_shown env rf sched : forall s t0 t,
  trace (world s) = t0 ++ t -> shown (handler s) t ->
  exists t',
    trace (world (exec env rf sched s)) = t0 ++ t ++ t'
    /\ response_headers t' = []
    /\ (length (do_calls t') <= length sched)%nat
    /\ shown (handler (exec env rf sched s)) (t ++ t').
Proof.
  induction sched as [|a sched IH]; intros s t0 t Htr Hsh.
  - exists []. rewrite !app_nil_r. done.
  - cbn [exec]. destruct (step env rf a s) as [s'|] eqn:E.
    + destruct (step_shown env rf a s s' t0 t Htr Hsh E) as (t1 & Ht1 & Hh1 & Hd1 & Hs1).
      destruct (IH s' t0 (t ++ t1) Ht1 Hs1) as (t2 & Ht2 & Hh2 & Hd2 & Hs2).
      exists (t1 ++ t2). rewrite <- app_assoc in Ht2, Hs2.
      rewrite response_headers_app, Hh1, Hh2, do_calls_app, length_app.
      split; [done|]. split; [done|]. split; [cbn [length]; lia|done].
    + destruct (IH s t0 t Htr Hsh) as (t2 & Ht2 & Hh2 & Hd2 & Hs2).
      exists t2. split; [done|]. split; [done|]. split; [cbn [length]; lia|done].
Qed.

Lemma launch_shown fuel env rf url w :
  exists t,
    trace (snd (handleRefracted_launch fuel env rf url w)) = trace w ++ t
    /\ (length (do_calls t) <= 5)%nat
    /\ written t = []
    /\ shown (fst (fst (handleRefracted_launch fuel env rf url w))) t
    /\ (forall i, fst (fst (handleRefracted_launch fuel env rf url w)) = Receiving i ->
        exists resp tf,
          fst (retryRequest rf (headReq url) w) = Some (mkResponseErr None (Some resp))
          /\ t = tf ++ [EvHeaderAdd "content-length" (Sprint (ContentLength resp))]
          /\ forallb is_fetch tf = true).
Proof.
  remember (handleRefracted_launch fuel env rf url w) as x eqn:Hx.
  unfold handleRefracted_launch, NewRequest in Hx.
  destruct (url_ok env url).
  - fold (headReq url) in Hx.
    destruct (retryRequest_spec rf (headReq url) w)
      as (res & t & k & Hr & Hd & Hk & Hf & Hwf & _).
    unfold bind in Hx. rewrite Hr in Hx. rewrite Hr. cbn [fst].
    assert (Hcalls : (length (do_calls t) <= 5)%nat).
    { rewrite Hd, repeat_length. unfold retries in Hk. lia. }
    destruct Hwf as [[e ->]|[resp ->]]; cbn [response] in Hx.
    + subst x. unfold emit, ret. cbn [fst snd trace].
      exists (t ++ [EvPanic]). rewrite app_assoc, do_calls_app, written_app,
        (fetch_written _ Hf), length_app. cbn [shown].
      rewrite write_headers_app, (fetch_write_headers _ Hf).
      repeat split; try done. cbn. lia.
    + destruct (launch fuel env rf url (ContentLength resp) 0 []) as [cs|cs|cs];
        subst x; unfold emit, ret; cbn [fst snd trace].
      * exists (t ++ [EvHeaderAdd "content-length" (Sprint (ContentLength resp))]).
        rewrite app_assoc, do_calls_app, written_app, (fetch_written _ Hf), length_app.
        cbn [shown]. rewrite forallb_app, (fetch_quiet _ Hf).
        split; [done|]. split; [cbn; lia|]. split; [done|]. split; [done|].
        intros i _. by exists resp, t.
      * exists (t ++ [EvWriteHeader StatusInternalServerError]).
        rewrite app_assoc, do_calls_app, written_app, (fetch_written _ Hf), length_app.
        cbn [shown]. unfold status_formula.
        rewrite (fetch_status_line _ _ Hf), written_app, write_headers_app,
          (fetch_written _ Hf), (fetch_write_headers _ Hf).
        split; [done|]. split; [cbn; lia|]. split; [done|].
        split; [split; [done|by right]|done].
      * exists t. cbn [shown]. rewrite (fetch_written _ Hf), (fetch_write_headers _ Hf).
        done.
  - subst x. unfold bind, emit, ret. cbn [fst snd trace].
    exists [EvWriteHeader StatusInternalServerError].
    split; [done|]. split; [cbn; lia|]. split; [done|].
    split; [split; [done|by right]|done].
Qed.

Lemma handleRefracted_shown fuel env rf url sched w :
  let s := handleRefracted fuel env rf url sched w in
  exists t,
    trace (world s) = trace w ++ t /\ shown (handler s) t.
Proof.
  unfold handleRefracted.
  destruct (launch_shown fuel env rf url w) as (t & Ht & _ & _ & Hs & _).
  destruct (handleRefracted_launch fuel env rf url w) as [[h cs] w1].
  cbn [fst snd] in *.
  destruct (exec_shown env rf sched (mkSys cs h w1) (trace w) t Ht Hs)
    as (t' & Ht' & _ & _ & Hs').
  exists (t ++ t'). done.
Qed.

(** X12: whatever the mirrors answer, whatever the client does and under
    every schedule, [handleRefracted] calls [WriteHeader] at most once, with
    500 and nothing else, and not at all while it is in its receive loop. *)
Theorem handleRefracted_writes_500_at_most_once (fuel : nat) (env : Env)
    (rf : Refractor) (url : string) (sched : list Actor) (w : World) :
  let s := handleRefracted fuel env rf url sched w in
  exists t,
    trace (world s) = trace w ++ t
    /\ (write_headers t = [] \/ write_headers t = [StatusInternalServerError])
    /\ forall i, handler s = Receiving i -> write_headers t = [].
Proof.
  intros s.
  destruct (handleRefracted_shown fuel env rf url sched w) as (t & Ht & Hs).
  fold s in Ht, Hs. exists t. split; [done|].
  destruct (handler s) as [i| | | |]; cbn [shown] in Hs.
  - pose proof (quiet_write_headers _ Hs) as H. split; [by left|done].
  - split; [by destruct Hs|done].
  - split; [by left|done].
  - split; [by left|done].
  - split; [by left|done].
Qed.



(** X14: when the probe succeeds and the launch loop ends, the only header
    that [handleRefracted] adds to the response is [content-length], once,
    with the length that the probe declared; it is added after the requests
    of the probe and before anything is written to the client, under every
    schedule. *)
Theorem content_length_before_body (fuel : nat) (env : Env) (rf : Refractor)
    (url : string) (sched : list Actor) (w w1 : World) (cs : list Chunk) :
  handleRefracted_launch fuel env rf url w = ((Receiving 0, cs), w1) ->
  let s := handleRefracted fuel env rf url sched w in
  exists resp t1 t2,
    fst (retryRequest rf (headReq url) w) = Some (mkResponseErr None (Some resp))
    /\ trace (world s) =
         trace w ++ t1 ++ [EvHeaderAdd "content-length" (Sprint (ContentLength resp))] ++ t2
    /\ written t1 = [] /\ write_headers t1 = []
    /\ response_headers t1 = [] /\ response_headers t2 = []
    /\ response_headers (t1 ++ [EvHeaderAdd "content-length" (Sprint (ContentLength resp))] ++ t2)
       = [("content-length"%string, Sprint (ContentLength resp))].
Proof.
  intros Hl s. subst s. unfold handleRefracted.
  destruct (launch_shown fuel env rf url w) as (t & Ht & _ & _ & Hs & Hrecv).
  rewrite Hl in *. cbn [fst snd] in *.
  destruct (Hrecv 0%nat eq_refl) as (resp & tf & Hr & -> & Hf).
  destruct (exec_shown env rf sched (mkSys cs (Receiving 0) w1) (trace w) _ Ht Hs)
    as (t' & Ht' & Hh' & _ & _).
  exists resp, tf, t'. rewrite Ht', <- !app_assoc.
  rewrite !response_headers_app, Hh', (fetch_response_headers _ Hf).
  repeat split; try done.
  - by apply fetch_written.
  - by apply fetch_write_headers.
Qed.

Lemma content_length_before_body_witness :
  let rf := rf_two (DoOk 206 5 hello true) (DoOk 206 5 world_ true) in
  let s := handleRefracted 8 env_ok rf "/linux.pkg" [ATask 0; AHandler] empty_world in
  response_headers (trace (world s)) = [("content-length"%string, "10"%string)].
Proof.
  intros rf s.
  pose (l := handleRefracted_launch 8 env_ok rf "/linux.pkg" empty_world).
  destruct (content_length_before_body 8 env_ok rf "/linux.pkg" [ATask 0; AHandler]
              empty_world (snd l) (snd (fst l)))
    as (resp & t1 & t2 & Hr & Ht & _ & _ & _ & _ & Hh).
  - vm_compute. reflexivity.
  - fold s in Ht. change (trace empty_world) with (@nil Event) in Ht.
    rewrite app_nil_l in Ht. rewrite Ht, Hh.
    vm_compute in Hr. injection Hr as <-. reflexivity.
Defined.

(** ** The receive loop, in general *)



(** X16: the receive loop cannot deadlock: whatever the mirrors answer and
    whatever has been scheduled so far, the schedule can be continued so
    that the handler returns. *)
Theorem receive_loop_can_always_return (fuel : nat) (env : Env) (rf : Refractor)
    (url : string) (w w1 : World) (cs : list Chunk) (sched : list Actor) :
  handleRefracted_launch fuel env rf url w = ((Receiving 0, cs), w1) ->
  exists more, handler (handleRefracted fuel env rf url (sched ++ more) w) = Returned.
Proof. intros Hl. by eapply handleRefracted_finishes. Qed.

Lemma receive_loop_can_always_return_witness :
  exists more,
    handler (handleRefracted 8 env_ok (rf_two DoErr (DoOk 206 5 world_ true)) "/linux.pkg"
               ([ATask 1; AHandler] ++ more) empty_world) = Returned.
Proof.
  pose (l := handleRefracted_launch 8 env_ok (rf_two DoErr (DoOk 206 5 world_ true))
               "/linux.pkg" empty_world).
  apply (receive_loop_can_always_return 8 env_ok (rf_two DoErr (DoOk 206 5 world_ true))
           "/linux.pkg" empty_world (snd l) (snd (fst l)) [ATask 1; AHandler]).
  vm_compute. reflexivity.
Defined.

Lemma reassemble_prefix env bodies rest : forall i,
  (forall j, (j < length bodies)%nat -> client env (i + j) = None) ->
  reassemble env i ((Some <$> bodies) ++ rest) =
    (concat bodies ++ fst (reassemble env (i + length bodies) rest),
     snd (reassemble env (i + length bodies) rest)).
Proof.
  induction bodies as [|d bodies IH]; intros i Hc.
  - cbn [fmap list_fmap app concat length]. rewrite Nat.add_0_r.
    by destruct (reassemble env i rest).
  - cbn [fmap list_fmap app reassemble concat length].
    change (list_fmap _ _ Some bodies) with (Some <$> bodies).
    pose proof (Hc 0%nat ltac:(cbn; lia)) as H0. rewrite Nat.add_0_r in H0. rewrite H0.
    rewrite IH.
    + replace (S i + length bodies)%nat with (i + S (length bodies))%nat by lia.
      cbn [fst snd]. by rewrite app_assoc.
    + intros j Hj. replace (S i + j)%nat with (i + S j)%nat by lia.
      apply Hc. cbn [length]. lia.
Qed.

(** X17: when the chunks before some chunk are fetched and taken by the
    client and the fetch of that chunk fails, then under every schedule the
    handler, once returned, has written the bodies of the chunks before it
    in their order and nothing after them, and has called [WriteHeader(500)]
    once; the chunks behind the failing one do not matter. *)
Theorem chunk_failure_truncates (fuel : nat) (env : Env) (rf : Refractor) (url : string)
    (w w1 : World) (cs : list Chunk) (bodies : list (list Byte.byte))
    (rest : list (option (list Byte.byte))) (sched : list Actor) :
  handleRefracted_launch fuel env rf url w = ((Receiving 0, cs), w1) ->
  (fun c => fetched rf (c_req c)) <$> cs = (Some <$> bodies) ++ None :: rest ->
  (forall j, (j < length bodies)%nat -> client env j = None) ->
  let s := handleRefracted fuel env rf url sched w in
  handler s = Returned ->
  written (trace (world s)) = written (trace w) ++ concat bodies
  /\ write_headers (trace (world s))
     = write_headers (trace w) ++ [StatusInternalServerError].
Proof.
  intros Hl Hv Hc s Hret.
  destruct (handleRefracted_outcome env rf fuel url w cs w1 sched Hl) as (t & Ht & Ho).
  fold s in Ht, Ho. rewrite Hret in Ho. unfold verdicts in Ho. rewrite Hv in Ho.
  rewrite (reassemble_prefix env bodies (None :: rest) 0 Hc) in Ho.
  cbn [reassemble fst snd] in Ho. rewrite app_nil_r in Ho.
  rewrite Ht, written_app, write_headers_app. by injection Ho as <- <-.
Qed.

Lemma chunk_failure_truncates_witness :
  let s := handleRefracted 8 env_ok (rf_two (DoOk 206 5 hello true) DoErr) "/linux.pkg"
             ([ATask 0; AHandler] ++ repeat (ATask 1) 5 ++ [AHandler]) empty_world in
  written (trace (world s)) = hello /\ write_headers (trace (world s)) = [500].
Proof.
  intros s.
  pose (l := handleRefracted_launch 8 env_ok (rf_two (DoOk 206 5 hello true) DoErr)
               "/linux.pkg" empty_world).
  destruct (chunk_failure_truncates 8 env_ok (rf_two (DoOk 206 5 hello true) DoErr)
              "/linux.pkg" empty_world (snd l) (snd (fst l)) [hello] []
              ([ATask 0; AHandler] ++ repeat (ATask 1) 5 ++ [AHandler])) as [Hw Hh].
  - vm_compute. reflexivity.
  - vm_compute. reflexivity.
  - intros j Hj. reflexivity.
  - vm_compute. reflexivity.
  - fold s in Hw, Hh. split; [rewrite Hw|rewrite Hh]; vm_compute; reflexivity.
Defined.

(** X18: when the client connection breaks during the copy of a chunk,
    after [k] of its bytes, then the handler, once returned, has written the
    bodies of the chunks before it and those [k] bytes, and has called
    [WriteHeader(500)] once; the chunks behind it are not written. *)
Theorem client_failure_truncates (fuel : nat) (env : Env) (rf : Refractor) (url : string)
    (w w1 : World) (cs : list Chunk) (bodies : list (list Byte.byte))
    (d : list Byte.byte) (k : nat)
    (rest : list (option (list Byte.byte))) (sched : list Actor) :
  handleRefracted_launch fuel env rf url w = ((Receiving 0, cs), w1) ->
  (fun c => fetched rf (c_req c)) <$> cs = (Some <$> bodies) ++ Some d :: rest ->
  (forall j, (j < length bodies)%nat -> client env j = None) ->
  client env (length bodies) = Some k ->
  let s := handleRefracted fuel env rf url sched w in
  handler s = Returned ->
  written (trace (world s)) = written (trace w) ++ concat bodies ++ take k d
  /\ write_headers (trace (world s))
     = write_headers (trace w) ++ [StatusInternalServerError].
Proof.
  intros Hl Hv Hc Hk s Hret.
  destruct (handleRefracted_outcome env rf fuel url w cs w1 sched Hl) as (t & Ht & Ho).
  fold s in Ht, Ho. rewrite Hret in Ho. unfold verdicts in Ho. rewrite Hv in Ho.
  rewrite (reassemble_prefix env bodies (Some d :: rest) 0 Hc) in Ho.
  cbn [reassemble Nat.add] in Ho. rewrite Hk in Ho. cbn [fst snd] in Ho.
  rewrite Ht, written_app, write_headers_app. by injection Ho as <- <-.
Qed.

Lemma client_failure_truncates_witness :
  let env := mkEnv (fun _ => true) (fun i => if Nat.eqb i 1 then Some 2%nat else None) in
  let rf := rf_two (DoOk 206 5 hello true) (DoOk 206 5 world_ true) in
  let s := handleRefracted 8 env rf "/linux.pkg"
             [ATask 1; ATask 0; AHandler; AHandler; AHandler] empty_world in
  written (trace (world s)) = hello ++ [Byte.x77; Byte.x6f]
  /\ write_headers (trace (world s)) = [500].
Proof.
  intros env rf s.
  pose (l := handleRefracted_launch 8 env rf "/linux.pkg" empty_world).
  destruct (client_failure_truncates 8 env rf "/linux.pkg" empty_world (snd l) (snd (fst l))
              [hello] world_ 2 [] [ATask 1; ATask 0; AHandler; AHandler; AHandler])
    as [Hw Hh].
  - vm_compute. reflexivity.
  - vm_compute. reflexivity.
  - intros j Hj. cbn [length] in Hj. assert (j = 0%nat) as -> by lia. reflexivity.
  - reflexivity.
  - vm_compute. reflexivity.
  - fold s in Hw, Hh. split; [rewrite Hw|rewrite Hh]; vm_compute; reflexivity.
Defined.

(** ** How often the mirrors are called *)

(** The attempts that a goroutine may still make. *)
Definition budget1 (c : Chunk) : nat :=
  match c_task c with
  | Fetching try => retries - try
  | _ => 0
  end.

Definition bounded (c : Chunk) : Prop :=
  forall try, c_task c = Fetching try -> (try < retries)%nat.

Lemma sum_insert (f : Chunk -> nat) l j c c' :
  l !! j = Some c ->
  (sum_list_with f (<[j := c']> l) + f c = sum_list_with f l + f c')%nat.
Proof.
  intros Hc. rewrite insert_take_drop by (by eapply lookup_lt_Some).
  rewrite <- (take_drop_middle l j c Hc) at 3.
  rewrite !sum_list_with_app. cbn [sum_list_with]. lia.
Qed.

Lemma consume_do_calls env i res w :
  exists tc, trace (snd (consume env i res w)) = trace w ++ tc /\ do_calls tc = [].
Proof.
  destruct (consume_shown env i res w [] eq_refl) as (tc & Ht & _ & Hd & _).
  by exists tc.
Qed.

Lemma step_budget env rf a s s' :
  Forall bounded (chunks s) -> step env rf a s = Some s' ->
  exists t,
    trace (world s') = trace (world s) ++ t
    /\ (length (do_calls t) + sum_list_with budget1 (chunks s')
        <= sum_list_with budget1 (chunks s))%nat
    /\ Forall bounded (chunks s')
    /\ length (chunks s') = length (chunks s).
Proof.
  intros Hb. unfold step. destruct a as [j|].
  - destruct (chunks s !! j) as [c|] eqn:Hc; [|done].
    destruct (c_task c) as [try| |] eqn:Htk; try done.
    destruct (retry_iter_spec rf (c_req c) try (world s)) as (t & Ht & Hd & _ & Hit).
    destruct (retry_iter rf (c_req c) try (world s)) as [it w'].
    intros [= <-]. cbn [fst snd chunks world] in *.
    assert (Htry : (try < retries)%nat).
    { rewrite Forall_lookup in Hb. by apply (Hb j c Hc). }
    set (tk := match it with Continue t0 => Fetching t0 | Send res => Sending res end).
    exists t. split; [done|]. rewrite Hd. cbn [length].
    pose proof (sum_insert budget1 _ _ _ (set_task c tk) Hc) as Hs.
    assert (Hdec : (1 + budget1 (set_task c tk) <= budget1 c)%nat).
    { unfold budget1. cbn [set_task c_task]. rewrite Htk. subst tk.
      destruct it as [try'|res]; [destruct Hit as [-> Hlt]|]; lia. }
    split; [lia|]. split; [|by apply length_insert].
    apply Forall_insert; [done|].
    intros try' Heq. cbn [set_task c_task] in Heq. subst tk.
    destruct it as [t0|res]; [|done]. injection Heq as ->. by destruct Hit as [-> ?].
  - destruct (handler s) as [i| | | |]; try done.
    destruct (chunks s !! i) as [c|] eqn:Hc.
    + destruct (c_task c) as [|res|] eqn:Htk; try done.
      destruct (consume_do_calls env i res (world s)) as (tc & Htc & Hd).
      destruct (consume env i res (world s)) as [h w'].
      intros [= <-]. cbn [fst snd chunks world] in *.
      exists tc. split; [done|]. rewrite Hd. cbn [length].
      pose proof (sum_insert budget1 _ _ _ (set_task c Exited) Hc) as Hs.
      assert (H0 : budget1 c = 0%nat) by (unfold budget1; by rewrite Htk).
      assert (H1 : budget1 (set_task c Exited) = 0%nat) by done.
      split; [lia|]. split; [|by apply length_insert].
      apply Forall_insert; [done|]. by intros try' Heq.
    + intros [= <-]. exists []. rewrite app_nil_r. cbn [chunks world].
      change (do_calls []) with (@nil Request). cbn [length].
      split; [done|]. split; [lia|]. done.
Qed.

Lemma exec_budget env rf sched : forall s,
  Forall bounded (chunks s) ->
  exists t,
    trace (world (exec env rf sched s)) = trace (world s) ++ t
    /\ (length (do_calls t) + sum_list_with budget1 (chunks (exec env rf sched s))
        <= sum_list_with budget1 (chunks s))%nat
    /\ length (chunks (exec env rf sched s)) = length (chunks s).
Proof.
  induction sched as [|a sched IH]; intros s Hb.
  - exists []. rewrite app_nil_r. cbn [exec].
    change (do_calls []) with (@nil Request). cbn [length].
    split; [done|]. split; [lia|done].
  - cbn [exec]. destruct (step env rf a s) as [s'|] eqn:E; [|by apply IH].
    destruct (step_budget env rf a s s' Hb E) as (t1 & Ht1 & Hs1 & Hb1 & Hl1).
    destruct (IH s' Hb1) as (t2 & Ht2 & Hs2 & Hl2).
    exists (t1 ++ t2). rewrite Ht2, Ht1, <- app_assoc, do_calls_app, length_app.
    split; [done|]. split; [lia|]. by rewrite Hl2.
Qed.

Lemma fetching_budget cs :
  Forall (fun c => c_task c = Fetching 0) cs ->
  sum_list_with budget1 cs = (5 * length cs)%nat /\ Forall bounded cs.
Proof.
  induction 1 as [|c cs Hc Hcs [IH1 IH2]]; [by split|].
  cbn [sum_list_with length]. unfold budget1 at 1. rewrite Hc, IH1.
  split; [unfold retries; lia|]. constructor; [|done].
  intros try Heq. rewrite Hc in Heq. injection Heq as <-. unfold retries. lia.
Qed.

Lemma handleRefracted_launch_fetching fuel env rf url w :
  Forall (fun c => c_task c = Fetching 0)
    (snd (fst (handleRefracted_launch fuel env rf url w))).
Proof.
  unfold handleRefracted_launch.
  destruct (NewRequest env MethodHead url) as [req|]; [|by constructor].
  unfold bind.
  destruct (retryRequest rf (req_add "accept-encoding" "identity" req) w) as [[br|] w1];
    [|by constructor].
  destruct (response br) as [resp|]; [|by constructor].
  pose proof (launch_all_fetching env rf url (ContentLength resp) fuel 0 []
                (Forall_nil_2 _)) as Hl.
  by destruct (launch fuel env rf url (ContentLength resp) 0 []).
Qed.

(** X19: the load on the mirrors is bounded under every schedule:
    [handleRefracted] calls the mirror pool at most five times for the probe
    and at most five times for each chunk it has launched, however the
    goroutines are interleaved and also after the handler has returned. *)
Theorem mirror_calls_bounded (fuel : nat) (env : Env) (rf : Refractor) (url : string)
    (sched : list Actor) (w : World) :
  let s := handleRefracted fuel env rf url sched w in
  exists t,
    trace (world s) = trace w ++ t
    /\ (length (do_calls t) <= 5 + 5 * length (chunks s))%nat.
Proof.
  intros s. subst s. unfold handleRefracted.
  destruct (launch_shown fuel env rf url w) as (t & Ht & Hcalls & _).
  pose proof (handleRefracted_launch_fetching fuel env rf url w) as Hf.
  destruct (handleRefracted_launch fuel env rf url w) as [[h cs] w1].
  cbn [fst snd] in *.
  destruct (fetching_budget cs Hf) as [Hsum Hb].
  destruct (exec_budget env rf sched (mkSys cs h w1) Hb) as (t' & Ht' & Hs' & Hl').
  cbn [chunks world] in *.
  exists (t ++ t'). rewrite Ht', Ht, <- app_assoc, do_calls_app, length_app, Hl'.
  split; [done|]. lia.
Qed.

(** ** Buffers are owned by one response at a time *)

(** X20: starting from a pool in order, under every schedule a buffer
    inside a response that waits at the send of its goroutine is filled, is
    not among the idle buffers of the pool, and is inside no other waiting
    response. *)
Theorem buffers_exclusively_owned (fuel : nat) (env : Env) (rf : Refractor)
    (url : string) (sched : list Actor) (w : World) :
  pool_ok w ->
  let s := ServeHTTP fuel env rf url sched w in
  forall j c b,
    chunks s !! j = Some c -> held_buffer c = Some b ->
    discipline b (trace (world s)) = Some BFilled
    /\ ~ In b (idle_ids (world s))
    /\ forall j' c', chunks s !! j' = Some c' -> held_buffer c' = Some b -> j' = j.
Proof.
  intros Hok s j c b Hc Hb.
  destruct (ServeHTTP_sys_ok fuel env rf url sched w Hok) as (_ & Hheld & Hdist).
  fold s in Hheld, Hdist.
  destruct (Hheld j c b Hc Hb) as [H1 H2].
  split; [done|]. split; [done|].
  intros j' c' Hc' Hb'. by eapply Hdist.
Qed.

Lemma buffers_exclusively_owned_witness :
  let s := ServeHTTP 8 env_ok (rf_two (DoOk 206 5 hello true) (DoOk 206 5 world_ true))
             "/linux.pkg" [ATask 1; ATask 0] empty_world in
  discipline 0 (trace (world s)) = Some BFilled
  /\ discipline 1 (trace (world s)) = Some BFilled
  /\ idle (buffers (world s)) = [].
Proof.
  intros s.
  assert (Hc0 : exists c, chunks s !! 0%nat = Some c /\ held_buffer c = Some 1%nat)
    by (eexists; split; vm_compute; reflexivity).
  assert (Hc1 : exists c, chunks s !! 1%nat = Some c /\ held_buffer c = Some 0%nat)
    by (eexists; split; vm_compute; reflexivity).
  destruct Hc0 as (c0 & Hl0 & Hh0). destruct Hc1 as (c1 & Hl1 & Hh1).
  destruct (buffers_exclusively_owned 8 env_ok
              (rf_two (DoOk 206 5 hello true) (DoOk 206 5 world_ true))
              "/linux.pkg" [ATask 1; ATask 0] empty_world empty_world_ok
              0%nat c0 1%nat Hl0 Hh0) as (H1 & _).
  destruct (buffers_exclusively_owned 8 env_ok
              (rf_two (DoOk 206 5 hello true) (DoOk 206 5 world_ true))
              "/linux.pkg" [ATask 1; ATask 0] empty_world empty_world_ok
              1%nat c1 0%nat Hl1 Hh1) as (H0 & _).
  split; [exact H0|]. split; [exact H1|]. vm_compute. reflexivity.
Defined.

(** ** Routing, by the shape of the URL *)

Lemma string_length_app (p s : string) :
  String.length (p ++ s)%string = (String.length p + String.length s)%nat.
Proof.
  induction p as [|c p IH]; [done|].
  change (String c p ++ s)%string with (String c (p ++ s))%string.
  cbn [String.length Nat.add]. by rewrite IH.
Qed.

Lemma substring_all (s : string) : substring 0 (String.length s) s = s.
Proof.
  induction s as [|c s IH]; [done|]. cbn [String.length substring]. by rewrite IH.
Qed.

Lemma substring_skip (p s : string) m :
  substring (String.length p) m (p ++ s)%string = substring 0 m s.
Proof.
  induction p as [|c p IH]; [done|].
  change (String c p ++ s)%string with (String c (p ++ s))%string. exact IH.
Qed.

Lemma substring_split (s : string) : forall n,
  (n <= String.length s)%nat ->
  s = (substring 0 n s ++ substring n (String.length s - n) s)%string.
Proof.
  induction s as [|c s IH]; intros n Hn.
  - cbn in Hn. assert (n = 0%nat) as -> by lia. done.
  - destruct n as [|n].
    + cbn [substring String.length Nat.sub].
      change (EmptyString ++ String c (substring 0 (String.length s) s))%string
        with (String c (substring 0 (String.length s) s)).
      by rewrite substring_all.
    + cbn [substring String.length Nat.sub].
      change (String c (substring 0 n s) ++ substring n (String.length s - n) s)%string
        with (String c (substring 0 n s ++ substring n (String.length s - n) s))%string.
      f_equal. apply IH. cbn in Hn. lia.
Qed.

Lemma HasSuffix_app (p suffix : string) : HasSuffix (p ++ suffix) suffix = true.
Proof.
  unfold HasSuffix. rewrite string_length_app.
  replace (String.length p + String.length suffix - String.length suffix)%nat
    with (String.length p) by lia.
  rewrite substring_skip, substring_all, String.eqb_refl.
  apply andb_true_iff. split; [|done]. apply Nat.leb_le. lia.
Qed.

Lemma HasSuffix_inv (s suffix : string) :
  HasSuffix s suffix = true -> exists p, s = (p ++ suffix)%string.
Proof.
  unfold HasSuffix. intros H. apply andb_true_iff in H as [Hle Heq].
  apply Nat.leb_le in Hle. apply String.eqb_eq in Heq.
  exists (substring 0 (String.length s - String.length suffix) s).
  rewrite <- Heq at 2.
  rewrite (substring_split s (String.length s - String.length suffix)) at 1 by lia.
  do 2 f_equal. lia.
Qed.

Fixpoint string_last (s : string) : option Ascii.ascii :=
  match s with
  | EmptyString => None
  | String c EmptyString => Some c
  | String _ s => string_last s
  end.

Lemma string_last_app (p s : string) :
  s <> EmptyString -> string_last (p ++ s)%string = string_last s.
Proof.
  intros Hs. induction p as [|c p IH]; [done|].
  change (String c p ++ s)%string with (String c (p ++ s))%string.
  cbn [string_last]. rewrite IH.
  destruct (p ++ s)%string eqn:E; [|done].
  destruct p; [by destruct s|discriminate E].
Qed.

(** X21: the router decides by the end of the URL string and by nothing
    else: every URL that is some prefix followed by [.db.sig] is answered
    with 404 without a call of the mirror pool; every URL that is some prefix
    followed by [.db] is handed to [handlePlain]; and a URL that is of
    neither shape is handed to [handleRefracted]. *)
Theorem ServeHTTP_by_suffix (fuel : nat) (env : Env) (rf : Refractor) (p : string)
    (sched : list Actor) (w : World) :
  ServeHTTP fuel env rf (p ++ ".db.sig") sched w =
    mkSys [] Returned (mkWorld (buffers w) (trace w ++ [EvWriteHeader StatusNotFound]))
  /\ ServeHTTP fuel env rf (p ++ ".db") sched w =
       mkSys [] (fst (handlePlain env rf (p ++ ".db") w))
                (snd (handlePlain env rf (p ++ ".db") w))
  /\ ((forall q, p <> (q ++ ".db.sig")%string) -> (forall q, p <> (q ++ ".db")%string) ->
      ServeHTTP fuel env rf p sched w = handleRefracted fuel env rf p sched w).
Proof.
  split; [|split].
  - unfold ServeHTTP. by rewrite HasSuffix_app.
  - unfold ServeHTTP.
    assert (Hsig : HasSuffix (p ++ ".db") ".db.sig" = false).
    { destruct (HasSuffix (p ++ ".db") ".db.sig") eqn:E; [|done].
      apply HasSuffix_inv in E as [q Hq].
      apply (f_equal string_last) in Hq.
      rewrite !string_last_app in Hq by done. discriminate Hq. }
    rewrite Hsig, HasSuffix_app. by destruct (handlePlain env rf (p ++ ".db") w).
  - intros Hsig Hdb. unfold ServeHTTP.
    destruct (HasSuffix p ".db.sig") eqn:E1.
    { apply HasSuffix_inv in E1 as [q Hq]. destruct (Hsig q Hq). }
    destruct (HasSuffix p ".db") eqn:E2; [|done].
    apply HasSuffix_inv in E2 as [q Hq]. destruct (Hdb q Hq).
Qed.

Lemma ServeHTTP_by_suffix_witness :
  ServeHTTP 8 env_ok rf_down "/core.db?x=1" [] empty_world =
    handleRefracted 8 env_ok rf_down "/core.db?x=1" [] empty_world.
Proof.
  destruct (ServeHTTP_by_suffix 8 env_ok rf_down "/core.db?x=1" [] empty_world)
    as (_ & _ & H).
  apply H.
  - intros q Hq. apply (f_equal string_last) in Hq.
    rewrite string_last_app in Hq by done. discriminate Hq.
  - intros q Hq. apply (f_equal string_last) in Hq.
    rewrite string_last_app in Hq by done. discriminate Hq.
Defined.

(** ** What reaches the mirrors *)

Lemma reqs_insert (l : list Chunk) j c tk :
  l !! j = Some c -> c_req <$> <[j := set_task c tk]> l = c_req <$> l.
Proof.
  intros Hc. rewrite list_fmap_insert. cbn [set_task c_req].
  apply list_insert_id. by rewrite list_lookup_fmap, Hc.
Qed.

Lemma step_calls env rf a s s' :
  step env rf a s = Some s' ->
  exists t,
    trace (world s') = trace (world s) ++ t
    /\ Forall (fun r => r ∈ (c_req <$> chunks s)) (do_calls t)
    /\ c_req <$> chunks s' = c_req <$> chunks s.
Proof.
  unfold step. destruct a as [j|].
  - destruct (chunks s !! j) as [c|] eqn:Hc; [|done].
    destruct (c_task c) as [try| |]; try done.
    destruct (retry_iter_spec rf (c_req c) try (world s)) as (t & Ht & Hd & _).
    destruct (retry_iter rf (c_req c) try (world s)) as [it w'].
    intros [= <-]. cbn [fst snd chunks world] in *.
    exists t. split; [done|]. split; [|by apply reqs_insert].
    rewrite Hd. constructor; [|constructor].
    apply list_elem_of_fmap. exists c. split; [done|].
    by eapply list_elem_of_lookup_2.
  - destruct (handler s) as [i| | | |]; try done.
    destruct (chunks s !! i) as [c|] eqn:Hc.
    + destruct (c_task c) as [|res|]; try done.
      destruct (consume_do_calls env i res (world s)) as (tc & Htc & Hd).
      destruct (consume env i res (world s)) as [h w'].
      intros [= <-]. cbn [fst snd chunks world] in *.
      exists tc. split; [done|]. split; [|by apply reqs_insert].
      rewrite Hd. constructor.
    + intros [= <-]. exists []. rewrite app_nil_r. split; [done|]. split; [|done].
      constructor.
Qed.

Lemma exec_calls env rf sched : forall s,
  exists t,
    trace (world (exec env rf sched s)) = trace (world s) ++ t
    /\ Forall (fun r => r ∈ (c_req <$> chunks s)) (do_calls t)
    /\ c_req <$> chunks (exec env rf sched s) = c_req <$> chunks s.
Proof.
  induction sched as [|a sched IH]; intros s.
  - exists []. rewrite app_nil_r. split; [done|]. split; [constructor|done].
  - cbn [exec]. destruct (step env rf a s) as [s'|] eqn:E; [|apply IH].
    destruct (step_calls env rf a s s' E) as (t1 & Ht1 & Hc1 & Hr1).
    destruct (IH s') as (t2 & Ht2 & Hc2 & Hr2).
    exists (t1 ++ t2). rewrite Ht2, Ht1, <- app_assoc, do_calls_app.
    split; [done|]. split; [|by rewrite Hr2].
    apply Forall_app. split; [done|]. by rewrite Hr1 in Hc2.
Qed.

(** X22: on the chunked path nothing but the probe and the ranged requests
    reaches the mirrors: under every schedule the calls of the mirror pool
    are first the attempts of the HEAD probe, one to five of them, and after
    these only GETs of the same URL, each with the [range] header of one of
    the launched chunks and [accept-encoding: identity]; the whole resource
    is never asked for in one request. *)
Theorem only_probe_and_ranges (fuel : nat) (env : Env) (rf : Refractor) (url : string)
    (w w1 : World) (cs : list Chunk) (sched : list Actor) :
  handleRefracted_launch fuel env rf url w = ((Receiving 0, cs), w1) ->
  let s := handleRefracted fuel env rf url sched w in
  exists t k rs,
    trace (world s) = trace w ++ t
    /\ do_calls t = repeat (headReq url) k ++ rs
    /\ (1 <= k <= 5)%nat
    /\ forall r, In r rs ->
         exists c, In c cs
           /\ r = mkRequest MethodGet url
                    [("range"%string, range_value (c_start c) (c_end c));
                     ("accept-encoding"%string, "identity"%string)].
Proof.
  intros Hl s. subst s. unfold handleRefracted. rewrite Hl.
  assert (Hcs : Forall (fun c => c_req c = chunk_request url (c_start c) (c_end c)
                                 /\ c_task c = Fetching 0) cs
                /\ exists t k, trace w1 = trace w ++ t
                     /\ do_calls t = repeat (headReq url) k /\ (1 <= k <= 5)%nat).
  { revert Hl. unfold handleRefracted_launch, NewRequest.
    destruct (url_ok env url) eqn:Hurl; [|done]. fold (headReq url).
    destruct (retryRequest_spec rf (headReq url) w)
      as (res & t & k & Hr & Hd & Hk & Hf & Hwf & _).
    unfold bind. rewrite Hr.
    destruct Hwf as [[e ->]|[resp ->]]; cbn [response]; [done|].
    pose proof (launch_shape env rf url (ContentLength resp) fuel 0 []
                  (Forall_nil_2 _)) as Hshape.
    destruct (launch fuel env rf url (ContentLength resp) 0 []) as [cs'|cs'|cs'];
      try done.
    unfold emit, ret. cbn [trace buffers launched] in *. intros [= <- <-].
    split; [done|].
    exists (t ++ [EvHeaderAdd "content-length" (Sprint (ContentLength resp))]), k.
    cbn [trace]. rewrite app_assoc, do_calls_app, Hd.
    split; [done|]. split; [by rewrite app_nil_r|unfold retries in Hk; lia]. }
  destruct Hcs as (Hshape & t & k & Ht & Hd & Hk).
  destruct (exec_calls env rf sched (mkSys cs (Receiving 0) w1)) as (t' & Ht' & Hc' & _).
  cbn [chunks world] in *.
  exists (t ++ t'), k, (do_calls t').
  rewrite Ht', Ht, <- app_assoc, do_calls_app, Hd.
  split; [done|]. split; [done|]. split; [done|].
  intros r Hr. rewrite Forall_forall in Hc'.
  apply list_elem_of_In in Hr. apply Hc' in Hr.
  apply list_elem_of_fmap in Hr as (c & -> & Hc).
  exists c. split; [by apply list_elem_of_In|].
  rewrite Forall_forall in Hshape. by destruct (Hshape c Hc) as [-> _].
Qed.

Lemma only_probe_and_ranges_witness :
  let rf := rf_two (DoOk 206 5 hello true) (DoOk 206 5 world_ true) in
  let s := handleRefracted 8 env_ok rf "/linux.pkg" [ATask 1; ATask 0] empty_world in
  do_calls (trace (world s)) =
    [headReq "/linux.pkg"; chunk_request "/linux.pkg" 5 9; chunk_request "/linux.pkg" 0 4].
Proof.
  intros rf s.
  pose (l := handleRefracted_launch 8 env_ok rf "/linux.pkg" empty_world).
  destruct (only_probe_and_ranges 8 env_ok rf "/linux.pkg" empty_world (snd l) (snd (fst l))
              [ATask 1; ATask 0]) as (t & k & rs & Ht & _).
  - vm_compute. reflexivity.
  - fold s in Ht. vm_compute. reflexivity.
Defined.

(** X23: the deferred [response.Body.Close()] of an attempt runs on every
    path that got a response from the mirror pool (wrong status, probe, copy
    error, truncation, success), as the last thing the attempt does and so
    after the copy of the body where there is one; an attempt whose call of
    the mirror pool returned an error has no body and closes nothing. *)
Theorem request_closes_body (r : Request) (d : DoResult) (w : World) :
  exists t,
    trace (snd (request r d w)) = trace w ++ t
    /\ match d with
       | DoErr => ~ In EvBodyClose t
       | DoOk _ _ _ _ => last t = Some EvBodyClose
       end.
Proof.
  unfold request, buf_Reset, buf_Fill, buffers_Get, bind, emit, ret.
  destruct d as [|status len data read_ok]; simpl.
  - exists [EvDo r]. split; [done|]. intros [H|[]]. discriminate H.
  - destruct (status =? expectedStatus r); simpl.
    + destruct (is_head (req_method r)); simpl.
      * exists [EvDo r; EvBodyClose]. rewrite <- app_assoc. done.
      * destruct (idle (buffers w)) as [|b rest]; simpl;
          destruct read_ok; simpl;
          destruct (Z.of_nat (length data) =? len); simpl;
          eexists [EvDo r; EvGet _; EvReset _; EvFill _ _; EvBodyClose];
          repeat rewrite <- app_assoc; done.
    + exists [EvDo r; EvBodyClose]. rewrite <- app_assoc. done.
Qed.

(** ** A resource of at most one chunk *)

(** X24: a resource of at most [ChunkSize + 1] bytes is fetched in one
    chunk, which starts at 0 and ends at [ChunkSize] or at [size], whichever
    is smaller: for a resource of up to [ChunkSize] bytes the range ends at
    [size], one past the last byte. *)
Theorem small_resource_single_chunk (env : Env) (rf : Refractor) (url : string)
    (size : Z) (fuel : nat) :
  url_ok env url = true ->
  0 < size <= ChunkSize (rf_config rf) + 1 ->
  ChunkSize (rf_config rf) < Int64.max_int ->
  launch (S fuel) env rf url size 0 [] =
    LaunchDone [mkChunk 0 (Z.min (ChunkSize (rf_config rf)) size)
                  (chunk_request url 0 (Z.min (ChunkSize (rf_config rf)) size))
                  (Fetching 0)].
Proof.
  intros Hurl Hsize Hmax. set (C := ChunkSize (rf_config rf)) in *.
  assert (Hmx : Int64.max_int = 9223372036854775807) by reflexivity.
  cbn [launch]. fold C.
  destruct (0 <? size) eqn:E; [|apply Z.ltb_ge in E; lia].
  unfold NewRequest. rewrite Hurl.
  assert (Hadd : Int64.add 0 C = C).
  { apply wrap_in_range. unfold Int64.in_range, Int64.min_int. lia. }
  rewrite Hadd.
  assert (He : (if C >? size then size else C) = Z.min C size).
  { destruct (C >? size) eqn:G.
    - apply Z.gtb_lt in G. lia.
    - rewrite Z.gtb_ltb in G. apply Z.ltb_ge in G. lia. }
  rewrite He.
  assert (Hadd1 : Int64.add (Z.min C size) 1 = Z.min C size + 1).
  { apply wrap_in_range. unfold Int64.in_range, Int64.min_int. lia. }
  rewrite Hadd1. by rewrite launch_nothing by lia.
Qed.

Lemma small_resource_single_chunk_witness :
  launch 1 env_ok rf_down "/linux.pkg" 3 0 [] =
    LaunchDone [mkChunk 0 3 (chunk_request "/linux.pkg" 0 3) (Fetching 0)].
Proof.
  apply (small_resource_single_chunk env_ok rf_down "/linux.pkg" 3 0).
  - reflexivity.
  - cbn. lia.
  - vm_compute. reflexivity.
Defined.

(** ** No buffer is lost when nothing fails *)

(** An answer of the mirror pool that cannot strand a buffer: the attempt
    either does not get as far as the copy, or the copy succeeds. *)
Definition leak_free (r : Request) (d : DoResult) : bool :=
  match d with
  | DoErr => true
  | DoOk status len data read_ok =>
      negb (status =? expectedStatus r)
      || is_head (req_method r)
      || (read_ok && (Z.of_nat (length data) =? len))
  end.

Lemma request_leak_free r d w :
  leak_free r d = true ->
  (exists t, snd (request r d w) = mkWorld (buffers w) (trace w ++ t)
             /\ forallb no_buffer_event t = true
             /\ result_buffer (fst (request r d w)) = None)
  \/ (exists data, snd (request r d w) = snd (after_copy r data w)
             /\ result_buffer (fst (request r d w))
                = Some (buf_id (fst (after_copy r data w)))).
Proof.
  unfold leak_free, request, after_copy, buf_Reset, buf_Fill, buffers_Get, bind, emit, ret.
  destruct d as [|status len data read_ok]; cbn [fst snd trace buffers].
  - intros _. left. exists [EvDo r]. done.
  - destruct (status =? expectedStatus r); cbn [negb orb fst snd trace buffers].
    + destruct (is_head (req_method r)); cbn [orb fst snd trace buffers].
      * intros _. left. exists [EvDo r; EvBodyClose]. rewrite <- app_assoc. done.
      * intros H. apply andb_true_iff in H as [-> ->]. right. exists data.
        destruct (idle (buffers w)) as [|b rest]; cbn [negb fst snd trace buffers buf_id];
          repeat rewrite <- app_assoc; cbn [app]; done.
    + intros _. left. exists [EvDo r; EvBodyClose]. rewrite <- app_assoc. done.
Qed.

Lemma after_copy_other r data w b :
  b <> buf_id (fst (after_copy r data w)) ->
  discipline b (trace (snd (after_copy r data w))) = discipline b (trace w).
Proof.
  unfold after_copy, buffers_Get.
  destruct (idle (buffers w)) as [|b0 rest]; cbn [fst snd trace buf_id];
    intros Hne; rewrite discipline_app;
    (destruct (discipline b (trace w)); [|done]); by apply copy_events_other.
Qed.

(** Under leak-free answers a buffer is filled after an attempt only if it
    was filled before or is the one the attempt hands out. *)
Lemma retry_iter_no_leak rf r try w b :
  leak_free r (Pool rf r (S try)) = true ->
  discipline b (trace (snd (retry_iter rf r try w))) = Some BFilled ->
  discipline b (trace w) = Some BFilled
  \/ iter_buffer (fst (retry_iter rf r try w)) = Some b.
Proof.
  intros Hlf. unfold retry_iter, bind.
  destruct (request_leak_free r (Pool rf r (S try)) w Hlf)
    as [(t & Hw & Ht & Hb)|(data & Hw & Hb)].
  - destruct (request r (Pool rf r (S try)) w) as [res w1]. cbn [fst snd] in *. subst w1.
    assert (Hd : forall x : Iter, discipline b (trace (snd (x, mkWorld (buffers w) (trace w ++ t))))
                       = discipline b (trace w)).
    { intros x. cbn [snd trace]. by apply discipline_skip. }
    destruct res as [resp|e]; [|destruct (S try <? retries)%nat];
      unfold ret; rewrite Hd; auto.
  - destruct (request r (Pool rf r (S try)) w) as [res w1]. cbn [fst snd] in *. subst w1.
    destruct res as [resp|e]; [|done]. unfold ret. cbn [fst snd iter_buffer res_buffer response].
    cbn [result_buffer] in Hb. rewrite Hb. intros Hf.
    destruct (decide (b = buf_id (fst (after_copy r data w)))) as [->|Hne]; [by right|].
    left. by rewrite <- (after_copy_other r data w b Hne).
Qed.

Lemma retry_loop_head rf r : forall fuel try w,
  req_method r = MethodHead ->
  exists t,
    snd (retry_loop fuel rf r try w) = mkWorld (buffers w) (trace w ++ t)
    /\ forallb no_buffer_event t = true.
Proof.
  induction fuel as [|fuel IH]; intros try w Hm.
  - exists []. unfold retry_loop, ret. cbn [snd]. rewrite app_nil_r. by destruct w.
  - cbn [retry_loop]. unfold bind, retry_iter at 1, bind.
    assert (Hreq : exists t, snd (request r (Pool rf r (S try)) w)
                             = mkWorld (buffers w) (trace w ++ t)
                             /\ forallb no_buffer_event t = true).
    { unfold request, bind, emit, ret.
      destruct (Pool rf r (S try)) as [|status len data read_ok]; simpl.
      - exists [EvDo r]. done.
      - destruct (status =? expectedStatus r); simpl.
        + rewrite Hm. simpl. exists [EvDo r; EvBodyClose]. rewrite <- app_assoc. done.
        + exists [EvDo r; EvBodyClose]. rewrite <- app_assoc. done. }
    destruct Hreq as (t & Hw & Ht).
    destruct (request r (Pool rf r (S try)) w) as [res w1]. cbn [snd] in Hw. subst w1.
    destruct res as [resp|e].
    + unfold ret. cbn [snd]. by exists t.
    + destruct (S try <? retries)%nat.
      * unfold ret. destruct (IH (S try) (mkWorld (buffers w) (trace w ++ t)) Hm)
          as (t' & Hw' & Ht').
        rewrite Hw'. cbn [buffers trace]. exists (t ++ t'). rewrite app_assoc.
        split; [done|]. by rewrite forallb_app, Ht, Ht'.
      * unfold ret. cbn [snd]. by exists t.
Qed.

(** Every filled buffer is inside a response that waits at a send, and
    what waits at a send is an error or a response, not both. *)
Definition all_held (s : Sys) : Prop :=
  (forall b, discipline b (trace (world s)) = Some BFilled ->
     exists j c, chunks s !! j = Some c /\ held_buffer c = Some b)
  /\ (forall j c res, chunks s !! j = Some c -> c_task c = Sending res -> well_formed res).

Lemma consume_no_leak env i res w b :
  client env i = None -> well_formed res ->
  (forall b0, res_buffer res = Some b0 -> discipline b0 (trace w) = Some BFilled) ->
  discipline b (trace (snd (consume env i res w))) = Some BFilled ->
  discipline b (trace w) = Some BFilled /\ res_buffer res <> Some b.
Proof.
  intros Hcl Hwf Hheld. unfold consume.
  destruct Hwf as [[e ->]|[resp ->]]; cbn [err response res_buffer] in *.
  - unfold bind, emit, ret. cbn [snd trace]. rewrite discipline_skip by done. done.
  - unfold resp_buffer in *. unfold io_Copy_rw.
    destruct (RespBody resp) as [data ok|buf].
    + unfold bind, emit, ret. cbn [snd trace]. rewrite discipline_skip by done. done.
    + rewrite Hcl. unfold bind, emit, ret, buffers_Put. cbn [fst snd trace buffers].
      rewrite <- !app_assoc. cbn [app buf_id]. rewrite discipline_app.
      pose proof (Hheld _ eq_refl) as Hf.
      destruct (decide (b = buf_id buf)) as [->|Hne].
      * rewrite Hf. pose proof (drain_events (buf_id buf) (buf_id buf) (buf_bytes buf)) as H.
        rewrite Nat.eqb_refl in H. cbv beta iota. rewrite H. done.
      * destruct (discipline b (trace w)) as [st|]; [|done].
        cbv beta iota. rewrite drain_events_other by done.
        intros [= ->]. split; [done|congruence].
Qed.

Lemma step_all_held env rf a s s' :
  (forall r n, leak_free r (Pool rf r n) = true) ->
  (forall i, client env i = None) ->
  sys_ok s -> all_held s -> step env rf a s = Some s' -> all_held s'.
Proof.
  intros Hlf Hcl (Hok & Hheld & Hdist) [Hall Hwf]. unfold step. destruct a as [j|].
  - destruct (chunks s !! j) as [c|] eqn:Hc; [|done].
    destruct (c_task c) as [try| |] eqn:Htk; try done.
    pose proof (fun b => retry_iter_no_leak rf (c_req c) try (world s) b (Hlf _ _)) as Hnl.
    destruct (retry_iter_spec rf (c_req c) try (world s)) as (t & _ & _ & _ & Hit).
    destruct (retry_iter rf (c_req c) try (world s)) as [it w'].
    intros [= <-]. cbn [fst snd] in *.
    set (tk := match it with Continue t => Fetching t | Send res => Sending res end).
    split; cbn [world chunks].
    + intros b Hb. destruct (Hnl b Hb) as [Hold|Hnew].
      * destruct (Hall b Hold) as (j' & c' & Hc' & Hh').
        exists j', c'. split; [|done].
        rewrite list_lookup_insert_ne; [done|].
        intros ->. rewrite Hc in Hc'. injection Hc' as <-.
        unfold held_buffer in Hh'. by rewrite Htk in Hh'.
      * exists j, (set_task c tk). split.
        -- apply list_lookup_insert_eq. by eapply lookup_lt_Some.
        -- unfold held_buffer. cbn [set_task c_task]. by destruct it.
    + intros j' c' res Hc' Hs'.
      destruct (decide (j = j')) as [<-|Hne].
      * rewrite list_lookup_insert_eq in Hc' by (by eapply lookup_lt_Some).
        injection Hc' as <-. cbn [set_task c_task] in Hs'. subst tk.
        destruct it as [t0|res0]; [done|]. injection Hs' as <-. by destruct Hit.
      * rewrite list_lookup_insert_ne in Hc' by done. by eapply Hwf.
  - destruct (handler s) as [i| | | |]; try done.
    destruct (chunks s !! i) as [c|] eqn:Hc.
    + destruct (c_task c) as [|res|] eqn:Htk; try done.
      assert (Hc_held : held_buffer c = res_buffer res)
        by (unfold held_buffer; by rewrite Htk).
      pose proof (fun b => consume_no_leak env i res (world s) b (Hcl i)
                             (Hwf i c res Hc Htk)) as Hcons.
      destruct (consume env i res (world s)) as [h w'].
      intros [= <-]. cbn [fst snd] in *. split; cbn [world chunks].
      * intros b Hb.
        destruct (Hcons b) as [Hold Hne]; [|done|].
        { intros b0 Hb0. apply (Hheld i c b0 Hc). by rewrite Hc_held. }
        destruct (Hall b Hold) as (j' & c' & Hc' & Hh').
        exists j', c'. split; [|done].
        rewrite list_lookup_insert_ne; [done|].
        intros ->. rewrite Hc in Hc'. injection Hc' as <-. congruence.
      * intros j' c' res' Hc' Hs'.
        destruct (decide (i = j')) as [<-|Hne].
        -- rewrite list_lookup_insert_eq in Hc' by (by eapply lookup_lt_Some).
           by injection Hc' as <-.
        -- rewrite list_lookup_insert_ne in Hc' by done. by eapply Hwf.
    + by intros [= <-].
Qed.

Lemma exec_all_held env rf sched :
  (forall r n, leak_free r (Pool rf r n) = true) ->
  (forall i, client env i = None) ->
  forall s, sys_ok s -> all_held s ->
    sys_ok (exec env rf sched s) /\ all_held (exec env rf sched s).
Proof.
  intros Hlf Hcl. induction sched as [|a sched IH]; intros s Hs Ha; [done|].
  cbn [exec]. destruct (step env rf a s) as [s'|] eqn:E; [|by apply IH].
  apply IH; [by eapply step_sys_ok|by eapply step_all_held].
Qed.

(** X25: when no attempt fails after it has taken a buffer and the client
    takes every copy, the chunked fetcher returns every buffer it took: from
    a pool in order with all buffers idle, under every schedule, once all
    goroutines have handed over their value every buffer is idle again and
    was put back exactly as often as it was taken. *)
Theorem no_buffer_lost (fuel : nat) (env : Env) (rf : Refractor) (url : string)
    (w w1 : World) (cs : list Chunk) (sched : list Actor) :
  handleRefracted_launch fuel env rf url w = ((Receiving 0, cs), w1) ->
  pool_ok w ->
  (forall b, discipline b (trace w) = Some BIdle) ->
  (forall r n, leak_free r (Pool rf r n) = true) ->
  (forall i, client env i = None) ->
  let s := handleRefracted fuel env rf url sched w in
  Forall (fun c => c_task c = Exited) (chunks s) ->
  forall b,
    discipline b (trace (world s)) = Some BIdle
    /\ returns b (trace (world s)) = loans b (trace (world s)).
Proof.
  intros Hl Hok Hidle Hlf Hcl s Hex b. subst s. unfold handleRefracted in *.
  destruct (handleRefracted_launch_pool fuel env rf url w Hok) as [Hok1 Hfetch].
  assert (Hw1 : forall b0, discipline b0 (trace w1) = Some BIdle).
  { intros b0. revert Hl. unfold handleRefracted_launch, NewRequest.
    destruct (url_ok env url); [|done]. fold (headReq url).
    destruct (retry_loop_head rf (headReq url) retries 0 w eq_refl) as (t & Ht & Hq).
    unfold bind, retryRequest.
    destruct (retry_loop retries rf (headReq url) 0 w) as [[br|] w0]; [|done].
    cbn [snd] in Ht. subst w0.
    destruct (response br) as [resp|]; [|done].
    destruct (launch fuel env rf url (ContentLength resp) 0 []); try done.
    unfold emit, ret. cbn [trace buffers]. intros [= _ <-]. cbn [trace].
    rewrite <- app_assoc.
    rewrite discipline_skip by (by rewrite forallb_app, Hq). apply Hidle. }
  rewrite Hl in *. cbn [fst snd] in *.
  assert (Hinit : all_held (mkSys cs (Receiving 0) w1)).
  { split; cbn [world chunks].
    - intros b0 Hb0. rewrite Hw1 in Hb0. done.
    - intros j c res Hc Hs. rewrite Forall_lookup in Hfetch.
      by rewrite (Hfetch j c Hc) in Hs. }
  destruct (exec_all_held env rf sched Hlf Hcl _ (fetching_sys_ok _ _ _ Hfetch Hok1) Hinit)
    as [(Hp & _) [Hall _]].
  destruct Hp as (_ & _ & Hst).
  assert (Hb : discipline b (trace (world (exec env rf sched (mkSys cs (Receiving 0) w1))))
               = Some BIdle).
  { destruct (Hst b) as [H|(H & _)]; [done|].
    destruct (Hall b H) as (j & c & Hc & Hh).
    rewrite Forall_lookup in Hex. unfold held_buffer in Hh.
    by rewrite (Hex j c Hc) in Hh. }
  split; [done|].
  pose proof (discipline_counts b _ _ _ Hb) as Hc. cbn in Hc. lia.
Qed.

Lemma no_buffer_lost_witness :
  let rf := rf_two (DoOk 206 5 hello true) (DoOk 206 5 world_ true) in
  let s := handleRefracted 8 env_ok rf "/linux.pkg"
             [ATask 1; ATask 0; AHandler; AHandler; AHandler] empty_world in
  returns 0 (trace (world s)) = loans 0 (trace (world s))
  /\ returns 1 (trace (world s)) = loans 1 (trace (world s))
  /\ loans 1 (trace (world s)) = 1%nat.
Proof.
  intros rf s.
  pose (l := handleRefracted_launch 8 env_ok rf "/linux.pkg" empty_world).
  assert (H : forall b, discipline b (trace (world s)) = Some BIdle
                        /\ returns b (trace (world s)) = loans b (trace (world s))).
  { apply (no_buffer_lost 8 env_ok rf "/linux.pkg" empty_world (snd l) (snd (fst l))
             [ATask 1; ATask 0; AHandler; AHandler; AHandler]).
    - vm_compute. reflexivity.
    - apply empty_world_ok.
    - intros b. reflexivity.
    - intros r n. unfold leak_free, rf, rf_two, Pool.
      destruct (req_method r).
      + destruct (String.eqb (header_get "range" (req_header r)) "bytes=0-4");
          apply orb_true_iff; right; reflexivity.
      + apply orb_true_iff. left. apply orb_true_iff. right. reflexivity.
    - intros i. reflexivity.
    - vm_compute. repeat constructor. }
  split; [apply H|]. split; [apply H|]. vm_compute. reflexivity.
Defined.

(** ** The router, on a URL with a query *)



